(** * Harmonic summation in two precisions and two orders (hw1d.cpp)

    A shallow embedding of [main] of
    [old-temp/27592/moschettimichael_10726_3045693_hw1d.cpp].

    The program adds [1.0 / i] to a [float] and to a [double] accumulator,
    once for [i = 1 .. 100] ascending and once for [i = 100 .. 1] descending,
    and prints the four sums and the two differences.

    Arithmetic is IEEE-754 binary32 for [float] and binary64 for [double],
    round to nearest even, every operation rounded to the type C++ gives it
    (no excess precision, no contraction). The values are the standard
    library's [spec_float], whose operations are total functions on [Z]
    mantissas and exponents. *)

From Stdlib Require Import ZArith List String Ascii Bool Lia QArith Qabs.
From Stdlib Require Import Floats.SpecFloat.
Import ListNotations.

Local Open Scope Z_scope.

(** ** IEEE-754 formats and the conversions C++ inserts *)

Module IEEE.

(** [float]: 24 bits of precision, infinities at exponent 128. *)
Definition float_prec : Z := 24.
Definition float_emax : Z := 128.

(** [double]: 53 bits of precision, infinities at exponent 1024. *)
Definition double_prec : Z := 53.
Definition double_emax : Z := 1024.

Definition float := spec_float.
Definition double := spec_float.

(** The literals [0.0] and [1.0] have type [double]. *)
Definition lit_0_0 : double := S754_zero false.
Definition lit_1_0 : double := SFone double_prec double_emax.

(** [int] to [double] (usual arithmetic conversions of [1.0 / i]). *)
Definition double_of_int (i : Z) : double :=
  binary_normalize double_prec double_emax i 0 false.

(** [int] to [float]; the program never does it, the reduced-precision
    reading of the specification does. *)
Definition float_of_int (i : Z) : float :=
  binary_normalize float_prec float_emax i 0 false.

(** [float] to [double]: exact, the mantissa is re-normalised to 53 bits. *)
Definition double_of_float (x : float) : double :=
  match x with
  | S754_finite s m e => binary_round double_prec double_emax s m e
  | _ => x
  end.

(** [double] to [float]: one rounding to nearest even. *)
Definition float_of_double (x : double) : float :=
  match x with
  | S754_finite s m e => binary_round float_prec float_emax s m e
  | _ => x
  end.

Definition dadd : double -> double -> double := SFadd double_prec double_emax.
Definition dsub : double -> double -> double := SFsub double_prec double_emax.
Definition ddiv : double -> double -> double := SFdiv double_prec double_emax.

Definition fadd : float -> float -> float := SFadd float_prec float_emax.
Definition fsub : float -> float -> float := SFsub float_prec float_emax.
Definition fdiv : float -> float -> float := SFdiv float_prec float_emax.

Definition is_zero (x : spec_float) : bool :=
  match x with
  | S754_zero _ => true
  | _ => false
  end.

(** The exact rational value of a finite number ([0] for the others). *)
Definition value (x : spec_float) : Q :=
  match x with
  | S754_finite s m e =>
      let n := if s then Z.neg m else Z.pos m in
      if 0 <=? e then inject_Z (n * 2 ^ e) else n # Z.to_pos (2 ^ (- e))
  | _ => 0%Q
  end.

End IEEE.

(** ** Outcomes of running C++ code *)

(** A run either finishes with a value, meets undefined behaviour, or is cut
    short by the fuel of the model. *)
Inductive outcome (A : Type) : Type :=
| Done (a : A)
| Undefined
| OutOfFuel.

Arguments Done {A} a.
Arguments Undefined {A}.
Arguments OutOfFuel {A}.

Definition bind {A B : Type} (c : outcome A) (k : A -> outcome B) : outcome B :=
  match c with
  | Done a => k a
  | Undefined => Undefined
  | OutOfFuel => OutOfFuel
  end.

Notation "x <- c ;; k" := (bind c (fun x => k))
  (at level 61, c at next level, right associativity).

(** ** The [int] loop variable *)

Definition INT_MIN : Z := - 2147483648.
Definition INT_MAX : Z := 2147483647.

Definition in_int (z : Z) : bool := (INT_MIN <=? z) && (z <=? INT_MAX).

(** [i++] and [i--]: signed overflow is undefined behaviour. *)
Definition incr (i : Z) : outcome Z :=
  if in_int (i + 1) then Done (i + 1) else Undefined.

Definition decr (i : Z) : outcome Z :=
  if in_int (i - 1) then Done (i - 1) else Undefined.

(** [for (int i = init; cond(i); i = next(i)) body]: the condition is tested
    before every iteration, the body runs, then the step. One unit of fuel
    per iteration. *)
Fixpoint for_loop {S : Type} (fuel : nat) (cond : Z -> bool)
    (next : Z -> outcome Z) (body : Z -> S -> outcome S)
    (i : Z) (s : S) : outcome S :=
  if cond i then
    match fuel with
    | O => OutOfFuel
    | Datatypes.S k =>
        s' <- body i s ;;
        i' <- next i ;;
        for_loop k cond next body i' s'
    end
  else Done s.

(** The two loop headers of [main]. *)
Definition up_cond (i : Z) : bool := i <? 101.
Definition down_cond (i : Z) : bool := i >? 0.

Definition for_up {S : Type} (fuel : nat) (body : Z -> S -> outcome S) : S -> outcome S :=
  for_loop fuel up_cond incr body 1.

Definition for_down {S : Type} (fuel : nat) (body : Z -> S -> outcome S) : S -> outcome S :=
  for_loop fuel down_cond decr body 100.

(** ** The loop bodies *)

Import IEEE.

(** [1.0 / i]: [i] is converted to [double] and the division is a [double]
    division. A zero divisor is undefined behaviour in C++. *)
Definition one_over (i : Z) : outcome double :=
  let d := double_of_int i in
  if is_zero d then Undefined else Done (ddiv lit_1_0 d).

(** [f += 1.0 / i] with [float f]: [f] is converted to [double], the sum is a
    [double] sum, and the result is converted back to [float]. *)
Definition float_add_assign (f : float) (t : double) : float :=
  float_of_double (dadd (double_of_float f) t).

(** [dub += 1.0 / i] with [double dub]. *)
Definition double_add_assign (d : double) (t : double) : double :=
  dadd d t.

(** The local variables of [main]. *)
Record locals : Type := mkLocals {
  f1 : float;
  f2 : float;
  dub1 : double;
  dub2 : double
}.

(** [float f1 = 0.0; float f2 = 0.0; double dub1 = 0.0; double dub2 = 0.0;] *)
Definition init_locals : locals :=
  {| f1 := float_of_double lit_0_0;
     f2 := float_of_double lit_0_0;
     dub1 := lit_0_0;
     dub2 := lit_0_0 |}.

(** Body of the first loop: [f1 += 1.0 / i; dub1 += 1.0 / i;] *)
Definition forward_body (i : Z) (s : locals) : outcome locals :=
  t <- one_over i ;;
  let s := {| f1 := float_add_assign (f1 s) t; f2 := f2 s; dub1 := dub1 s; dub2 := dub2 s |} in
  t <- one_over i ;;
  Done {| f1 := f1 s; f2 := f2 s; dub1 := double_add_assign (dub1 s) t; dub2 := dub2 s |}.

(** Body of the second loop: [f2 += 1.0 / i; dub2 += 1.0 / i;] *)
Definition backward_body (i : Z) (s : locals) : outcome locals :=
  t <- one_over i ;;
  let s := {| f1 := f1 s; f2 := float_add_assign (f2 s) t; dub1 := dub1 s; dub2 := dub2 s |} in
  t <- one_over i ;;
  Done {| f1 := f1 s; f2 := f2 s; dub1 := dub1 s; dub2 := double_add_assign (dub2 s) t |}.

(** The two loops in sequence. *)
Definition sums (fuel : nat) : outcome locals :=
  s <- for_up fuel forward_body init_locals ;;
  for_down fuel backward_body s.

(** ** Writing to [cout] *)

(** [operator<<] on a floating-point value, with the stream in its initial
    state (precision 6, no [floatfield] flag), formats like [printf]'s [%g]:
    six significant decimal digits, the exact binary value rounded to nearest
    with ties to even; fixed notation when the decimal exponent [X] satisfies
    [-4 <= X < 6], scientific notation with an exponent of at least two digits otherwise;
    trailing zeros of the fraction dropped, and the point with them. *)
Module Fmt.

Local Open Scope string_scope.
Local Open Scope Z_scope.

Definition precision : Z := 6.

Definition digit_char (d : Z) : ascii := ascii_of_nat (48 + Z.to_nat d).

(** The [width] low decimal digits of [n], most significant first. *)
Fixpoint decimal (width : nat) (n : Z) (acc : string) : string :=
  match width with
  | O => acc
  | S w => decimal w (n / 10) (String (digit_char (n mod 10)) acc)
  end.

(** Largest [x' >= x] with [den * 10 ^ (x' - x) <= num], for [den <= num]. *)
Fixpoint grow (fuel : nat) (num den x : Z) : Z :=
  match fuel with
  | O => x
  | S k => if den * 10 <=? num then grow k num (den * 10) (x + 1) else x
  end.

(** Largest [x' <= x] with [den <= num * 10 ^ (x - x')]. *)
Fixpoint shrink (fuel : nat) (num den x : Z) : Z :=
  match fuel with
  | O => x
  | S k => if num <? den then shrink k (num * 10) den (x - 1) else x
  end.

(** [floor (log10 (num / den))] for positive [num] and [den]. *)
Definition exponent10 (num den : Z) : Z :=
  let fuel := Z.to_nat (Z.log2 num + Z.log2 den + 1) in
  if den <=? num then grow fuel num den 0 else shrink fuel num den 0.

(** [num / den] rounded to the nearest integer, ties to even. *)
Definition round_half_even (num den : Z) : Z :=
  let q := num / den in
  let r := num mod den in
  match 2 * r ?= den with
  | Lt => q
  | Gt => q + 1
  | Eq => if Z.even q then q else q + 1
  end.

(** [num / den * 10 ^ (precision - 1 - x)] rounded to an integer. *)
Definition scaled (num den x : Z) : Z :=
  let k := precision - 1 - x in
  if 0 <=? k then round_half_even (num * 10 ^ k) den
  else round_half_even num (den * 10 ^ (- k)).

(** The [precision] significant digits and the decimal exponent of the
    rounded value. *)
Definition significand (num den : Z) : Z * Z :=
  let x := exponent10 num den in
  let d := scaled num den x in
  if d <? 10 ^ precision then (d, x) else (10 ^ (precision - 1), x + 1).

Fixpoint strip_zeros (s : string) : string :=
  match s with
  | EmptyString => EmptyString
  | String c r =>
      match strip_zeros r with
      | EmptyString => if Ascii.eqb c "0" then EmptyString else String c EmptyString
      | r' => String c r'
      end
  end.

Fixpoint zeros (n : nat) : string :=
  match n with
  | O => EmptyString
  | S k => String "0" (zeros k)
  end.

Definition with_fraction (int frac : string) : string :=
  match strip_zeros frac with
  | EmptyString => int
  | f => int ++ "." ++ f
  end.

Definition exponent_field (x : Z) : string :=
  let a := Z.abs x in
  "e" ++ (if x <? 0 then "-" else "+")
      ++ decimal (if a <? 100 then 2 else 3) a EmptyString.

Definition general (num den : Z) : string :=
  let '(d, x) := significand num den in
  let ds := decimal (Z.to_nat precision) d EmptyString in
  if (-4 <=? x) && (x <? precision) then
    if 0 <=? x then
      let n := Z.to_nat (x + 1) in
      with_fraction (substring 0 n ds) (substring n (Z.to_nat precision - n) ds)
    else
      with_fraction "0" (zeros (Z.to_nat (- x - 1)) ++ ds)
  else
    with_fraction (substring 0 1 ds) (substring 1 (Z.to_nat precision - 1) ds)
      ++ exponent_field x.

Definition sign_field (s : bool) : string := if s then "-" else EmptyString.

Definition format (x : spec_float) : string :=
  match x with
  | S754_nan => "nan"
  | S754_infinity s => sign_field s ++ "inf"
  | S754_zero s => sign_field s ++ "0"
  | S754_finite s m e =>
      sign_field s ++
      (if 0 <=? e then general (Z.pos m * 2 ^ e) 1
       else general (Z.pos m) (2 ^ (- e)))
  end.

End Fmt.

(** The text written to standard output so far. *)
Definition ostream : Type := string.

Definition put_string (o : ostream) (s : string) : ostream := (o ++ s)%string.

(** [cout << x] with [float x]: the value is widened to [double] and
    formatted. *)
Definition put_float (o : ostream) (x : float) : ostream :=
  (o ++ Fmt.format (double_of_float x))%string.

Definition put_double (o : ostream) (x : double) : ostream :=
  (o ++ Fmt.format x)%string.

Definition newline : string := String (ascii_of_nat 10) EmptyString.

(** [cout << endl]: a newline (and a flush, which has no text). *)
Definition put_endl (o : ostream) : ostream := (o ++ newline)%string.

(** The four output statements of [main]. *)
Definition report (s : locals) (cout : ostream) : ostream :=
  let cout := put_endl (put_float (put_string (put_float (put_string cout
                "Float forward: ") (f1 s)) ", Float backward: ") (f2 s)) in
  let cout := put_endl (put_double (put_string (put_double (put_string cout
                "Double forward: ") (dub1 s)) ", Double backward: ") (dub2 s)) in
  let cout := put_endl (put_float (put_string cout
                "Float difference: ") (fsub (f1 s) (f2 s))) in
  let cout := put_endl (put_double (put_string cout
                "Double difference: ") (dsub (dub1 s) (dub2 s))) in
  cout.

(** [int main()]: the text on standard output and the value returned. *)
Definition main (fuel : nat) : outcome (ostream * Z) :=
  s <- sums fuel ;;
  let cout := report s EmptyString in
  Done (cout, 0).


(** ** Index lists and folds used to state the results *)

(** [k] consecutive integers upwards from [i], and downwards from [i]. *)
Fixpoint range_up (i : Z) (k : nat) : list Z :=
  match k with
  | O => []
  | S k' => i :: range_up (i + 1) k'
  end.

Fixpoint range_down (i : Z) (k : nat) : list Z :=
  match k with
  | O => []
  | S k' => i :: range_down (i - 1) k'
  end.

(** [1; 2; ...; 100] and [100; 99; ...; 1]. *)
Definition ascending : list Z := range_up 1 100.
Definition descending : list Z := range_down 100 100.

(** Running a body over a list of indices, left to right. *)
Fixpoint foldM {S : Type} (body : Z -> S -> outcome S) (l : list Z) (s : S) : outcome S :=
  match l with
  | [] => Done s
  | i :: r => s' <- body i s ;; foldM body r s'
  end.

(** The quotient [1.0 / n] without the zero check. *)
Definition quotient (n : Z) : double := ddiv lit_1_0 (double_of_int n).

(** One step of each accumulator, as a pure function. *)
Definition float_step (acc : float) (n : Z) : float := float_add_assign acc (quotient n).
Definition double_step (acc : double) (n : Z) : double := double_add_assign acc (quotient n).

(** The loop bodies as pure updates of the locals. *)
Definition forward_step (s : locals) (n : Z) : locals :=
  {| f1 := float_step (f1 s) n; f2 := f2 s;
     dub1 := double_step (dub1 s) n; dub2 := dub2 s |}.

Definition backward_step (s : locals) (n : Z) : locals :=
  {| f1 := f1 s; f2 := float_step (f2 s) n;
     dub1 := dub1 s; dub2 := double_step (dub2 s) n |}.

(** The values the locals hold when the second loop ends. *)
Definition final_locals : locals :=
  {| f1 := S754_finite false 10878720 (-21);
     f2 := S754_finite false 10878718 (-21);
     dub1 := S754_finite false 5840467863867971 (-50);
     dub2 := S754_finite false 5840467863867972 (-50) |}.

(** A body that only records the value of the loop variable. *)
Definition record_index (i : Z) (seen : list Z) : outcome (list Z) :=
  Done (seen ++ [i]).

(** *** One loop per accumulator

    The reading in which every accumulator has a loop of its own: the same
    two loop headers, each run once with the [float] statement alone and once
    with the [double] statement alone. *)
Definition float_body (i : Z) (f : float) : outcome float :=
  t <- one_over i ;; Done (float_add_assign f t).

Definition double_body (i : Z) (d : double) : outcome double :=
  t <- one_over i ;; Done (double_add_assign d t).

Definition independent_sums (fuel : nat) : outcome locals :=
  a <- for_up fuel float_body (float_of_double lit_0_0) ;;
  b <- for_up fuel double_body lit_0_0 ;;
  c <- for_down fuel float_body (float_of_double lit_0_0) ;;
  d <- for_down fuel double_body lit_0_0 ;;
  Done {| f1 := a; f2 := c; dub1 := b; dub2 := d |}.

(** *** The reduced-precision reading of [f += 1.0 / i]

    The quotient as a binary32 division of [1.0f] by [(float) i], added to
    the accumulator by a binary32 addition. *)
Definition one_over_float (i : Z) : float :=
  fdiv (float_of_double lit_1_0) (float_of_int i).

Definition float_step_reduced (acc : float) (n : Z) : float :=
  fadd acc (one_over_float n).

(** *** The same loops in exact rational arithmetic *)
Definition exact_body (i : Z) (q : Q) : outcome Q :=
  if i =? 0 then Undefined else Done (q + 1 / inject_Z i)%Q.

Definition exact_forward (fuel : nat) : outcome Q := for_up fuel exact_body 0%Q.
Definition exact_backward (fuel : nat) : outcome Q := for_down fuel exact_body 0%Q.

(** The harmonic number [H(n) = 1 + 1/2 + ... + 1/n]. *)
Fixpoint harmonic (n : nat) : Q :=
  match n with
  | O => 0%Q
  | S k => (harmonic k + 1 / inject_Z (Z.of_nat n))%Q
  end.

(** The exact sum of [1 / n] over a list of indices. *)
Definition exact_step (q : Q) (n : Z) : Q := (q + 1 / inject_Z n)%Q.

Fixpoint sum_inverses (l : list Z) : Q :=
  match l with
  | [] => 0%Q
  | n :: r => (1 / inject_Z n + sum_inverses r)%Q
  end.

(** *** Runs of the program

    [int main()] has no parameters and its body reads neither the command
    line, the environment, nor standard input: what the process is started
    with is dropped when [main] is called. *)
Record environment : Type := mkEnvironment {
  argv : list string;
  envp : list string;
  stdin : string
}.

Definition run (env : environment) (fuel : nat) : outcome (ostream * Z) :=
  main fuel.

(** The lines of a text, each ended by a newline; text after the last
    newline is a line only if it is not empty. *)
Fixpoint lines_from (cur : string) (s : string) : list string :=
  match s with
  | EmptyString =>
      match cur with
      | EmptyString => []
      | _ => [cur]
      end
  | String c r =>
      if Ascii.eqb c (ascii_of_nat 10) then cur :: lines_from EmptyString r
      else lines_from (cur ++ String c EmptyString)%string r
  end.

Definition lines (s : string) : list string := lines_from EmptyString s.

Definition no_newline_char (c : ascii) : bool := negb (Ascii.eqb c (ascii_of_nat 10)).

Fixpoint no_newline (s : string) : bool :=
  match s with
  | EmptyString => true
  | String c r => no_newline_char c && no_newline r
  end.

(** The four lines [main] writes, without their newlines. *)
Definition show_float (x : float) : string := Fmt.format (double_of_float x).
Definition show_double (x : double) : string := Fmt.format x.

Definition line_float_sums (s : locals) : string :=
  ("Float forward: " ++ show_float (f1 s) ++ ", Float backward: " ++ show_float (f2 s))%string.

Definition line_double_sums (s : locals) : string :=
  ("Double forward: " ++ show_double (dub1 s) ++ ", Double backward: " ++ show_double (dub2 s))%string.

Definition line_float_difference (s : locals) : string :=
  ("Float difference: " ++ show_float (fsub (f1 s) (f2 s)))%string.

Definition line_double_difference (s : locals) : string :=
  ("Double difference: " ++ show_double (dsub (dub1 s) (dub2 s)))%string.

(** The text of a run that reaches [return 0]. *)
Definition expected_output : string :=
  ("Float forward: 5.18738, Float backward: 5.18738" ++ newline ++
   "Double forward: 5.18738, Double backward: 5.18738" ++ newline ++
   "Float difference: 9.53674e-07" ++ newline ++
   "Double difference: -8.88178e-16" ++ newline)%string.

(** Equality of floating-point data (not the IEEE comparison). *)
Definition spec_float_eqb (a b : spec_float) : bool :=
  match a, b with
  | S754_zero s, S754_zero s' => Bool.eqb s s'
  | S754_infinity s, S754_infinity s' => Bool.eqb s s'
  | S754_nan, S754_nan => true
  | S754_finite s m e, S754_finite s' m' e' =>
      Bool.eqb s s' && Pos.eqb m m' && Z.eqb e e'
  | _, _ => false
  end.

(** *** States between iterations

    The locals after the first [k] iterations of the first loop, and after
    the first [k] iterations of the second loop (which starts where the first
    one ended). *)
Definition forward_state (k : nat) : locals :=
  fold_left forward_step (range_up 1 k) init_locals.

Definition backward_state (k : nat) : locals :=
  fold_left backward_step (range_down 100 k) (forward_state 100).

(** A finite number greater than zero. *)
Definition positive_finite (x : spec_float) : bool :=
  match x with
  | S754_finite false _ _ => true
  | _ => false
  end.

Definition Qlt_bool (a b : Q) : bool :=
  match (a ?= b)%Q with
  | Lt => true
  | _ => false
  end.

(** An addition that moved the accumulator from [x] up to [y]: [y] is finite,
    above [x] and below 6. *)
Definition grows (x y : spec_float) : bool :=
  positive_finite y && Qlt_bool (value x) (value y) && Qlt_bool (value y) 6.

(** Every step of a run of [step] over [l] from [s] makes both selected
    accumulators grow. *)
Fixpoint all_grow (step : locals -> Z -> locals) (acc1 acc2 : locals -> spec_float)
    (l : list Z) (s : locals) : bool :=
  match l with
  | [] => true
  | n :: r =>
      let s' := step s n in
      grows (acc1 s) (acc1 s') && grows (acc2 s) (acc2 s') &&
      all_grow step acc1 acc2 r s'
  end.

(** [check] holds before every step of a run of [step] over [l] from [s]. *)
Fixpoint all_steps (check : locals -> Z -> bool) (step : locals -> Z -> locals)
    (l : list Z) (s : locals) : bool :=
  match l with
  | [] => true
  | n :: r => check s n && all_steps check step r (step s n)
  end.

(** The [float] update as the program does it and in binary32 only. *)
Definition same_update (f : float) (n : Z) : bool :=
  spec_float_eqb (float_step f n) (float_step_reduced f n).

(** The divisors at which the two updates of [f2] differ. *)
Definition differing_divisors : list Z := [98; 81; 62].

(** What is checked of a term [1.0 / n]: finite and positive, within
    [2 ^ -53] of [1 / n] relative to it, exact only for the powers of two,
    and greater than the next term. *)
Definition term_checked (n : Z) : bool :=
  positive_finite (quotient n) &&
  Qle_bool (Qabs (inject_Z n * value (quotient n) - 1)) (1 # 9007199254740992) &&
  Bool.eqb (Qeq_bool (value (quotient n)) (1 / inject_Z n))
           (existsb (Z.eqb n) [1; 2; 4; 8; 16; 32; 64]) &&
  Qlt_bool (value (quotient (n + 1))) (value (quotient n)).

(** The program's [float] accumulator and the binary32-only one, run side by
    side over [l]; [check] holds of the pair after every step. *)
Fixpoint side_by_side (check : Z -> float -> float -> bool) (l : list Z)
    (a b : float) : bool :=
  match l with
  | [] => true
  | n :: r =>
      let a' := float_step a n in
      let b' := float_step_reduced b n in
      check n a' b' && side_by_side check r a' b'
  end.

(** The binary32-only accumulator after [k] iterations of each loop. *)
Definition reduced_forward (k : nat) : float :=
  fold_left float_step_reduced (range_up 1 k) (float_of_double lit_0_0).

Definition reduced_backward (k : nat) : float :=
  fold_left float_step_reduced (range_down 100 k) (float_of_double lit_0_0).

(** The iterations of the second loop after which the two runs hold
    different values: [98], [81 .. 79] and [62 .. 38]. *)
Definition differing_iterations : list Z :=
  98 :: range_down 81 3 ++ range_down 62 25.

(** *** The program with [1.0f / i]

    The [float] statement of the loops with every operation in binary32;
    a zero divisor is undefined behaviour as before. *)
Definition reduced_body (i : Z) (f : float) : outcome float :=
  if is_zero (float_of_int i) then Undefined else Done (float_step_reduced f i).

(** *** The statements of [main] one at a time

    A second reading of [main], as transitions between its program points.
    A process starts with some command line, environment and input, and with
    whatever the stack holds where [f1], [f2], [dub1], [dub2] and [i] will
    live; the transitions are the statements of the source, in its order. *)
Inductive label : Type :=
| L_f1_decl                (* float f1 = 0.0; *)
| L_f2_decl                (* float f2 = 0.0; *)
| L_dub1_decl              (* double dub1 = 0.0; *)
| L_dub2_decl              (* double dub2 = 0.0; *)
| L_up_init                (* int i = 1 *)
| L_up_test                (* i < 101 *)
| L_up_float               (* f1 += 1.0 / i; *)
| L_up_double              (* dub1 += 1.0 / i; *)
| L_up_incr                (* i++ *)
| L_down_init              (* int i = 100 *)
| L_down_test              (* i > 0 *)
| L_down_float             (* f2 += 1.0 / i; *)
| L_down_double            (* dub2 += 1.0 / i; *)
| L_down_decr              (* i-- *)
| L_print_float_sums       (* cout << "Float forward: " << ... << endl; *)
| L_print_double_sums      (* cout << "Double forward: " << ... << endl; *)
| L_print_float_difference (* cout << "Float difference: " << f1 - f2 << endl; *)
| L_print_double_difference(* cout << "Double difference: " << dub1 - dub2 << endl; *)
| L_return.                (* return 0; *)

Record store : Type := mkStore {
  st_env : environment;
  st_vars : locals;
  st_i : Z;
  st_cout : ostream
}.

Inductive config : Type :=
| At (l : label) (st : store)
| Exited (cout : ostream) (code : Z).

Definition set_vars (st : store) (v : locals) : store :=
  {| st_env := st_env st; st_vars := v; st_i := st_i st; st_cout := st_cout st |}.

Definition set_i (st : store) (i : Z) : store :=
  {| st_env := st_env st; st_vars := st_vars st; st_i := i; st_cout := st_cout st |}.

Definition set_cout (st : store) (o : ostream) : store :=
  {| st_env := st_env st; st_vars := st_vars st; st_i := st_i st; st_cout := o |}.

Definition set_f1 (v : locals) (x : float) : locals :=
  {| f1 := x; f2 := f2 v; dub1 := dub1 v; dub2 := dub2 v |}.

Definition set_f2 (v : locals) (x : float) : locals :=
  {| f1 := f1 v; f2 := x; dub1 := dub1 v; dub2 := dub2 v |}.

Definition set_dub1 (v : locals) (x : double) : locals :=
  {| f1 := f1 v; f2 := f2 v; dub1 := x; dub2 := dub2 v |}.

Definition set_dub2 (v : locals) (x : double) : locals :=
  {| f1 := f1 v; f2 := f2 v; dub1 := dub1 v; dub2 := x |}.

(** The four output statements, one by one. *)
Definition print_float_sums (s : locals) (cout : ostream) : ostream :=
  put_endl (put_float (put_string (put_float (put_string cout
    "Float forward: ") (f1 s)) ", Float backward: ") (f2 s)).

Definition print_double_sums (s : locals) (cout : ostream) : ostream :=
  put_endl (put_double (put_string (put_double (put_string cout
    "Double forward: ") (dub1 s)) ", Double backward: ") (dub2 s)).

Definition print_float_difference (s : locals) (cout : ostream) : ostream :=
  put_endl (put_float (put_string cout "Float difference: ") (fsub (f1 s) (f2 s))).

Definition print_double_difference (s : locals) (cout : ostream) : ostream :=
  put_endl (put_double (put_string cout "Double difference: ") (dsub (dub1 s) (dub2 s))).

(** One statement. A division by zero or an overflow of [i] has no
    transition: the run is stuck there. *)
Inductive step : config -> config -> Prop :=
| step_f1_decl st :
    step (At L_f1_decl st)
         (At L_f2_decl (set_vars st (set_f1 (st_vars st) (float_of_double lit_0_0))))
| step_f2_decl st :
    step (At L_f2_decl st)
         (At L_dub1_decl (set_vars st (set_f2 (st_vars st) (float_of_double lit_0_0))))
| step_dub1_decl st :
    step (At L_dub1_decl st)
         (At L_dub2_decl (set_vars st (set_dub1 (st_vars st) lit_0_0)))
| step_dub2_decl st :
    step (At L_dub2_decl st)
         (At L_up_init (set_vars st (set_dub2 (st_vars st) lit_0_0)))
| step_up_init st :
    step (At L_up_init st) (At L_up_test (set_i st 1))
| step_up_enter st :
    up_cond (st_i st) = true ->
    step (At L_up_test st) (At L_up_float st)
| step_up_leave st :
    up_cond (st_i st) = false ->
    step (At L_up_test st) (At L_down_init st)
| step_up_float st t :
    one_over (st_i st) = Done t ->
    step (At L_up_float st)
         (At L_up_double
             (set_vars st (set_f1 (st_vars st) (float_add_assign (f1 (st_vars st)) t))))
| step_up_double st t :
    one_over (st_i st) = Done t ->
    step (At L_up_double st)
         (At L_up_incr
             (set_vars st (set_dub1 (st_vars st) (double_add_assign (dub1 (st_vars st)) t))))
| step_up_incr st i' :
    incr (st_i st) = Done i' ->
    step (At L_up_incr st) (At L_up_test (set_i st i'))
| step_down_init st :
    step (At L_down_init st) (At L_down_test (set_i st 100))
| step_down_enter st :
    down_cond (st_i st) = true ->
    step (At L_down_test st) (At L_down_float st)
| step_down_leave st :
    down_cond (st_i st) = false ->
    step (At L_down_test st) (At L_print_float_sums st)
| step_down_float st t :
    one_over (st_i st) = Done t ->
    step (At L_down_float st)
         (At L_down_double
             (set_vars st (set_f2 (st_vars st) (float_add_assign (f2 (st_vars st)) t))))
| step_down_double st t :
    one_over (st_i st) = Done t ->
    step (At L_down_double st)
         (At L_down_decr
             (set_vars st (set_dub2 (st_vars st) (double_add_assign (dub2 (st_vars st)) t))))
| step_down_decr st i' :
    decr (st_i st) = Done i' ->
    step (At L_down_decr st) (At L_down_test (set_i st i'))
| step_print_float_sums st :
    step (At L_print_float_sums st)
         (At L_print_double_sums
             (set_cout st (print_float_sums (st_vars st) (st_cout st))))
| step_print_double_sums st :
    step (At L_print_double_sums st)
         (At L_print_float_difference
             (set_cout st (print_double_sums (st_vars st) (st_cout st))))
| step_print_float_difference st :
    step (At L_print_float_difference st)
         (At L_print_double_difference
             (set_cout st (print_float_difference (st_vars st) (st_cout st))))
| step_print_double_difference st :
    step (At L_print_double_difference st)
         (At L_return
             (set_cout st (print_double_difference (st_vars st) (st_cout st))))
| step_return st :
    step (At L_return st) (Exited (st_cout st) 0).

(** Zero or more statements. *)
Inductive reaches : config -> config -> Prop :=
| reaches_here c : reaches c c
| reaches_step c c' c'' : step c c' -> reaches c' c'' -> reaches c c''.

(** A run that ends: [main] returns [code] with [cout] written. *)
Definition exits (c : config) (cout : ostream) (code : Z) : Prop :=
  reaches c (Exited cout code).

(** The start of a process: nothing written yet, and arbitrary contents
    [garbage] and [j] where the variables will be. *)
Definition initial (env : environment) (garbage : locals) (j : Z) : config :=
  At L_f1_decl {| st_env := env; st_vars := garbage; st_i := j; st_cout := EmptyString |}.

(** ** Facts about the loops *)

Section Loops.

Context {S : Type}.
Variable body : Z -> S -> outcome S.

Lemma for_loop_up_enough (k : nat) :
  forall (fuel : nat) (i : Z) (s : S),
    (k <= fuel)%nat -> INT_MIN <= i -> i + Z.of_nat k = 101 ->
    for_loop fuel up_cond incr body i s = foldM body (range_up i k) s.
Proof.
  induction k as [|k IH]; intros fuel i s Hf Hlo Hi.
  - replace i with 101 by lia. destruct fuel; reflexivity.
  - destruct fuel as [|fuel]; [lia|].
    cbn [for_loop range_up foldM].
    assert (Hc : up_cond i = true) by (unfold up_cond; apply Z.ltb_lt; lia).
    rewrite Hc.
    destruct (body i s) as [s'| |]; cbn [bind]; try reflexivity.
    assert (Hn : incr i = Done (i + 1)).
    { unfold incr, in_int, INT_MIN, INT_MAX in *.
      replace (_ && _) with true; [reflexivity|].
      symmetry. apply andb_true_iff. split; apply Z.leb_le; lia. }
    rewrite Hn. cbn [bind]. apply IH; lia.
Qed.

Lemma for_loop_down_enough (k : nat) :
  forall (fuel : nat) (i : Z) (s : S),
    (k <= fuel)%nat -> i <= INT_MAX -> i = Z.of_nat k ->
    for_loop fuel down_cond decr body i s = foldM body (range_down i k) s.
Proof.
  induction k as [|k IH]; intros fuel i s Hf Hhi Hi.
  - subst i. destruct fuel; reflexivity.
  - destruct fuel as [|fuel]; [lia|].
    cbn [for_loop range_down foldM].
    assert (Hc : down_cond i = true) by (unfold down_cond; apply Z.gtb_gt; lia).
    rewrite Hc.
    destruct (body i s) as [s'| |]; cbn [bind]; try reflexivity.
    assert (Hn : decr i = Done (i - 1)).
    { unfold decr, in_int, INT_MIN, INT_MAX in *.
      replace (_ && _) with true; [reflexivity|].
      symmetry. apply andb_true_iff. split; apply Z.leb_le; lia. }
    rewrite Hn. cbn [bind]. apply IH; lia.
Qed.

(** With too little fuel a loop whose body never fails is cut short. *)
Lemma for_loop_up_short (k : nat) :
  forall (fuel : nat) (i : Z) (s : S),
    (fuel < k)%nat -> INT_MIN <= i -> i + Z.of_nat k = 101 ->
    (forall j t, i <= j <= 100 -> exists t', body j t = Done t') ->
    for_loop fuel up_cond incr body i s = OutOfFuel.
Proof.
  induction k as [|k IH]; intros fuel i s Hf Hlo Hi Hb; [lia|].
  assert (Hc : up_cond i = true) by (unfold up_cond; apply Z.ltb_lt; lia).
  destruct fuel as [|fuel]; cbn [for_loop]; rewrite Hc; [reflexivity|].
  destruct (Hb i s) as [s' ->]; [lia|]. cbn [bind].
  assert (Hn : incr i = Done (i + 1)).
  { unfold incr, in_int, INT_MIN, INT_MAX in *.
    replace (_ && _) with true; [reflexivity|].
    symmetry. apply andb_true_iff. split; apply Z.leb_le; lia. }
  rewrite Hn. cbn [bind]. apply IH; try lia.
  intros j t Hj. apply Hb. lia.
Qed.

Corollary for_up_short (fuel : nat) (s : S) :
  (fuel < 100)%nat ->
  (forall j t, 1 <= j <= 100 -> exists t', body j t = Done t') ->
  for_up fuel body s = OutOfFuel.
Proof.
  intros H Hb. apply (for_loop_up_short 100); [exact H | unfold INT_MIN; lia | reflexivity | exact Hb].
Qed.

Corollary for_up_enough (fuel : nat) (s : S) :
  (100 <= fuel)%nat -> for_up fuel body s = foldM body ascending s.
Proof.
  intros H. apply for_loop_up_enough; [exact H | unfold INT_MIN; lia | reflexivity].
Qed.

Corollary for_down_enough (fuel : nat) (s : S) :
  (100 <= fuel)%nat -> for_down fuel body s = foldM body descending s.
Proof.
  intros H. apply for_loop_down_enough; [exact H | unfold INT_MAX; lia | reflexivity].
Qed.

(** A body that succeeds on every index of [l] folds like its pure part. *)
Lemma foldM_pure (step : S -> Z -> S) (l : list Z) :
  forall s, (forall i t, In i l -> body i t = Done (step t i)) ->
  foldM body l s = Done (fold_left step l s).
Proof.
  induction l as [|i r IH]; intros s H; [reflexivity|].
  cbn [foldM fold_left]. rewrite H by (left; reflexivity). cbn [bind].
  apply IH. intros j t Hj. apply H. right. exact Hj.
Qed.

End Loops.

(** The indices of the two loops. *)
Lemma in_range_up (k : nat) : forall i j, In j (range_up i k) <-> i <= j < i + Z.of_nat k.
Proof.
  induction k as [|k IH]; intros i j; cbn [range_up In].
  - lia.
  - rewrite IH. lia.
Qed.

Lemma in_range_down (k : nat) : forall i j, In j (range_down i k) <-> i - Z.of_nat k < j <= i.
Proof.
  induction k as [|k IH]; intros i j; cbn [range_down In].
  - lia.
  - rewrite IH. lia.
Qed.

Lemma in_ascending (j : Z) : In j ascending <-> 1 <= j <= 100.
Proof. unfold ascending. rewrite in_range_up. lia. Qed.

Lemma in_descending (j : Z) : In j descending <-> 1 <= j <= 100.
Proof. unfold descending. rewrite in_range_down. lia. Qed.

Lemma descending_rev : descending = rev ascending.
Proof. reflexivity. Qed.

(** No index of the loops converts to a zero [double]. *)
Lemma divisor_nonzero (n : Z) : 1 <= n <= 100 -> is_zero (double_of_int n) = false.
Proof.
  intros H. apply in_ascending in H.
  assert (A : forallb (fun i => negb (is_zero (double_of_int i))) ascending = true)
    by (vm_compute; reflexivity).
  rewrite forallb_forall in A. apply negb_true_iff. apply A. exact H.
Qed.

Lemma one_over_defined (n : Z) : 1 <= n <= 100 -> one_over n = Done (quotient n).
Proof.
  intros H. unfold one_over. rewrite divisor_nonzero by exact H. reflexivity.
Qed.

(** ** The two loops of [main] *)

Lemma forward_body_defined (n : Z) (s : locals) :
  1 <= n <= 100 -> forward_body n s = Done (forward_step s n).
Proof.
  intros H. unfold forward_body. rewrite one_over_defined by exact H. reflexivity.
Qed.

Lemma backward_body_defined (n : Z) (s : locals) :
  1 <= n <= 100 -> backward_body n s = Done (backward_step s n).
Proof.
  intros H. unfold backward_body. rewrite one_over_defined by exact H. reflexivity.
Qed.

Lemma sums_enough (fuel : nat) :
  (100 <= fuel)%nat ->
  sums fuel =
  Done (fold_left backward_step descending (fold_left forward_step ascending init_locals)).
Proof.
  intros H. unfold sums.
  rewrite for_up_enough by exact H.
  rewrite (foldM_pure _ forward_step)
    by (intros i t Hi; apply forward_body_defined, in_ascending, Hi).
  cbn [bind]. rewrite for_down_enough by exact H.
  apply foldM_pure. intros i t Hi. apply backward_body_defined, in_descending, Hi.
Qed.

Lemma sums_short (fuel : nat) : (fuel < 100)%nat -> sums fuel = OutOfFuel.
Proof.
  intros H. unfold sums. rewrite for_up_short; [reflexivity | exact H |].
  intros j t Hj. eexists. apply forward_body_defined, Hj.
Qed.

(** Each loop changes its own two accumulators, each from its own old value. *)
Lemma fold_forward (l : list Z) : forall s,
  fold_left forward_step l s =
  {| f1 := fold_left float_step l (f1 s); f2 := f2 s;
     dub1 := fold_left double_step l (dub1 s); dub2 := dub2 s |}.
Proof.
  induction l as [|n r IH]; intros s; cbn [fold_left].
  - destruct s; reflexivity.
  - rewrite IH. reflexivity.
Qed.

Lemma fold_backward (l : list Z) : forall s,
  fold_left backward_step l s =
  {| f1 := f1 s; f2 := fold_left float_step l (f2 s);
     dub1 := dub1 s; dub2 := fold_left double_step l (dub2 s) |}.
Proof.
  induction l as [|n r IH]; intros s; cbn [fold_left].
  - destruct s; reflexivity.
  - rewrite IH. reflexivity.
Qed.

Lemma sums_value (fuel : nat) : (100 <= fuel)%nat -> sums fuel = Done final_locals.
Proof.
  intros H. rewrite sums_enough by exact H. apply f_equal. vm_compute. reflexivity.
Qed.

Lemma sums_cases (fuel : nat) : sums fuel = OutOfFuel \/ sums fuel = Done final_locals.
Proof.
  destruct (le_lt_dec 100 fuel) as [H|H].
  - right. apply sums_value, H.
  - left. apply sums_short, H.
Qed.

(** C1. The forward accumulators are the left-to-right folds of adding
    [1.0 / n] over [n = 1, 2, ..., 100], the backward accumulators the
    left-to-right folds over [n = 100, 99, ..., 1]; one fold for the [float]
    and one for the [double] accumulator in each direction, each starting
    from [0.0]. Adding [1.0 / n] is spelled out in the library's IEEE
    operations: the binary64 quotient of 1 by [n], a binary64 addition, and
    for the [float] accumulator a conversion to binary64 before and a
    rounding to binary32 after. The first two terms add up to exactly [3/2],
    and the four folds end in the values given last. *)
Theorem sums_are_folds (fuel : nat) :
  (100 <= fuel)%nat ->
  ascending = map Z.of_nat (seq 1 100) /\
  descending = rev (map Z.of_nat (seq 1 100)) /\
  exists s,
    sums fuel = Done s /\
    f1 s = fold_left float_step ascending (float_of_double lit_0_0) /\
    dub1 s = fold_left double_step ascending lit_0_0 /\
    f2 s = fold_left float_step descending (float_of_double lit_0_0) /\
    dub2 s = fold_left double_step descending lit_0_0 /\
    (let term (n : Z) :=
       SFdiv 53 1024 (S754_finite false 4503599627370496 (-52))
             (binary_normalize 53 1024 n 0 false) in
     let widen (x : spec_float) :=
       match x with
       | S754_finite sg m e => binary_round 53 1024 sg m e
       | _ => x
       end in
     let narrow (x : spec_float) :=
       match x with
       | S754_finite sg m e => binary_round 24 128 sg m e
       | _ => x
       end in
     let add_double (acc : spec_float) (n : Z) := SFadd 53 1024 acc (term n) in
     let add_float (acc : spec_float) (n : Z) :=
       narrow (SFadd 53 1024 (widen acc) (term n)) in
     f1 s = fold_left add_float (map Z.of_nat (seq 1 100)) (S754_zero false) /\
     dub1 s = fold_left add_double (map Z.of_nat (seq 1 100)) (S754_zero false) /\
     f2 s = fold_left add_float (rev (map Z.of_nat (seq 1 100))) (S754_zero false) /\
     dub2 s = fold_left add_double (rev (map Z.of_nat (seq 1 100))) (S754_zero false) /\
     (value (fold_left add_float [1%Z; 2%Z] (S754_zero false)) == 3 # 2)%Q /\
     (value (fold_left add_double [1%Z; 2%Z] (S754_zero false)) == 3 # 2)%Q /\
     (value (fold_left add_float [2%Z; 1%Z] (S754_zero false)) == 3 # 2)%Q /\
     (value (fold_left add_double [2%Z; 1%Z] (S754_zero false)) == 3 # 2)%Q) /\
    f1 s = S754_finite false 10878720 (-21) /\
    dub1 s = S754_finite false 5840467863867971 (-50) /\
    f2 s = S754_finite false 10878718 (-21) /\
    dub2 s = S754_finite false 5840467863867972 (-50).
Proof.
  intros H. split; [reflexivity|]. split; [reflexivity|].
  eexists. split; [apply sums_enough, H|].
  rewrite fold_backward, fold_forward. cbn [f1 f2 dub1 dub2 init_locals].
  split; [reflexivity|]. split; [reflexivity|].
  split; [reflexivity|]. split; [reflexivity|].
  split.
  - cbv zeta. repeat apply conj; vm_compute; reflexivity.
  - repeat apply conj; vm_compute; reflexivity.
Qed.

Lemma sums_are_folds_witness :
  (100 <= 100)%nat /\
  exists s,
    sums 100 = Done s /\
    f1 s = fold_left float_step ascending (float_of_double lit_0_0) /\
    dub1 s = fold_left double_step ascending lit_0_0 /\
    f2 s = fold_left float_step descending (float_of_double lit_0_0) /\
    dub2 s = fold_left double_step descending lit_0_0 /\
    f1 s = S754_finite false 10878720 (-21) /\
    dub1 s = S754_finite false 5840467863867971 (-50) /\
    f2 s = S754_finite false 10878718 (-21) /\
    dub2 s = S754_finite false 5840467863867972 (-50).
Proof.
  split; [lia|].
  destruct (sums_are_folds 100) as [_ [_ [s [A [B [C [D [E [_ [F [G [I J]]]]]]]]]]]]; [lia|].
  exists s. repeat apply conj; assumption.
Defined.

(** ** Interleaved loops against one loop per accumulator *)

Section Lockstep.

Variable cond : Z -> bool.
Variable next : Z -> outcome Z.

(** The first loop body run in any loop header is the [float] statement and
    the [double] statement each run in that header on its own. *)
Lemma forward_lockstep (fuel : nat) : forall (i : Z) (s : locals),
  for_loop fuel cond next forward_body i s =
  (a <- for_loop fuel cond next float_body i (f1 s) ;;
   b <- for_loop fuel cond next double_body i (dub1 s) ;;
   Done {| f1 := a; f2 := f2 s; dub1 := b; dub2 := dub2 s |}).
Proof.
  induction fuel as [|fuel IH]; intros i s.
  - cbn [for_loop]. destruct (cond i); [reflexivity|]. destruct s; reflexivity.
  - cbn [for_loop]. destruct (cond i); [|destruct s; reflexivity].
    unfold forward_body, float_body, double_body.
    destruct (one_over i) as [t| |]; cbn [bind]; try reflexivity.
    destruct (next i) as [i'| |]; cbn [bind]; try reflexivity.
    rewrite IH. reflexivity.
Qed.

Lemma backward_lockstep (fuel : nat) : forall (i : Z) (s : locals),
  for_loop fuel cond next backward_body i s =
  (c <- for_loop fuel cond next float_body i (f2 s) ;;
   d <- for_loop fuel cond next double_body i (dub2 s) ;;
   Done {| f1 := f1 s; f2 := c; dub1 := dub1 s; dub2 := d |}).
Proof.
  induction fuel as [|fuel IH]; intros i s.
  - cbn [for_loop]. destruct (cond i); [reflexivity|]. destruct s; reflexivity.
  - cbn [for_loop]. destruct (cond i); [|destruct s; reflexivity].
    unfold backward_body, float_body, double_body.
    destruct (one_over i) as [t| |]; cbn [bind]; try reflexivity.
    destruct (next i) as [i'| |]; cbn [bind]; try reflexivity.
    rewrite IH. reflexivity.
Qed.

End Lockstep.

(** C9. The two loops of [main], each updating a [float] and a [double]
    accumulator in one body, give the same outcome as four loops with one
    accumulator each, for every amount of fuel; with fuel for 100 iterations
    that outcome is the four final values. *)
Theorem interleaved_is_independent :
  (forall fuel : nat, sums fuel = independent_sums fuel) /\
  independent_sums 100 = Done final_locals.
Proof.
  assert (E : forall fuel : nat, sums fuel = independent_sums fuel).
  { intros fuel. unfold sums, independent_sums, for_up, for_down.
    rewrite forward_lockstep. cbn [init_locals f1 f2 dub1 dub2].
    destruct (for_loop fuel up_cond incr float_body 1 _) as [a| |];
      cbn [bind]; try reflexivity.
    destruct (for_loop fuel up_cond incr double_body 1 _) as [b| |];
      cbn [bind]; try reflexivity.
    rewrite backward_lockstep. reflexivity. }
  split; [exact E|].
  rewrite <- E. apply sums_value. lia.
Qed.

(** ** Exact rational arithmetic *)

Lemma exact_body_defined (n : Z) (q : Q) :
  1 <= n <= 100 -> exact_body n q = Done (exact_step q n).
Proof.
  intros H. unfold exact_body. destruct (Z.eqb_spec n 0); [lia | reflexivity].
Qed.

Lemma fold_exact_step (l : list Z) : forall q : Q,
  (fold_left exact_step l q == q + sum_inverses l)%Q.
Proof.
  induction l as [|n r IH]; intros q; cbn [fold_left sum_inverses].
  - ring.
  - rewrite IH. unfold exact_step. ring.
Qed.

Lemma sum_inverses_app (l r : list Z) :
  (sum_inverses (l ++ r) == sum_inverses l + sum_inverses r)%Q.
Proof.
  induction l as [|n l IH]; cbn [app sum_inverses].
  - ring.
  - rewrite IH. ring.
Qed.

(** Exact addition does not depend on the order of the terms. *)
Lemma sum_inverses_rev (l : list Z) : (sum_inverses (rev l) == sum_inverses l)%Q.
Proof.
  induction l as [|n l IH]; cbn [rev sum_inverses].
  - reflexivity.
  - rewrite sum_inverses_app, IH. cbn [sum_inverses]. ring.
Qed.

Lemma range_up_snoc (k : nat) : forall i,
  range_up i (S k) = range_up i k ++ [i + Z.of_nat k].
Proof.
  induction k as [|k IH]; intros i.
  - cbn. f_equal. f_equal. lia.
  - change (range_up i (S (S k))) with (i :: range_up (i + 1) (S k)).
    rewrite IH. cbn [range_up app]. do 3 f_equal. lia.
Qed.

Lemma harmonic_sum (n : nat) : (harmonic n == sum_inverses (range_up 1 n))%Q.
Proof.
  induction n as [|n IH].
  - reflexivity.
  - rewrite range_up_snoc, sum_inverses_app.
    change (harmonic (S n)) with (harmonic n + 1 / inject_Z (Z.of_nat (S n)))%Q.
    rewrite IH. cbn [sum_inverses].
    replace (1 + Z.of_nat n) with (Z.of_nat (S n)) by lia. ring.
Qed.

(** C10. In exact rational arithmetic the ascending loop and the descending
    loop end with equal sums, both the harmonic number [H(100)]. *)
Theorem exact_sums_agree (fuel : nat) :
  (100 <= fuel)%nat ->
  exists a b : Q,
    exact_forward fuel = Done a /\
    exact_backward fuel = Done b /\
    (a == b)%Q /\ (a == harmonic 100)%Q /\ (b == harmonic 100)%Q /\
    Qred a = (14466636279520351160221518043104131447711
              # 2788815009188499086581352357412492142272)%Q.
Proof.
  intros H. unfold exact_forward, exact_backward.
  rewrite for_up_enough, for_down_enough by exact H.
  rewrite !(foldM_pure _ exact_step).
  2: intros i t Hi; apply exact_body_defined, in_descending, Hi.
  2: intros i t Hi; apply exact_body_defined, in_ascending, Hi.
  do 2 eexists. split; [reflexivity|]. split; [reflexivity|].
  assert (A : (fold_left exact_step ascending 0 == harmonic 100)%Q).
  { rewrite fold_exact_step, harmonic_sum. unfold ascending. ring. }
  assert (B : (fold_left exact_step descending 0 == harmonic 100)%Q).
  { rewrite fold_exact_step, descending_rev, sum_inverses_rev, harmonic_sum.
    unfold ascending. ring. }
  split; [rewrite A, B; reflexivity|]. split; [exact A|]. split; [exact B|].
  vm_compute. reflexivity.
Qed.

Lemma exact_sums_agree_witness :
  (100 <= 100)%nat /\
  exists a b : Q,
    exact_forward 100 = Done a /\
    exact_backward 100 = Done b /\
    (a == b)%Q /\ (a == harmonic 100)%Q /\ (b == harmonic 100)%Q /\
    Qred a = (14466636279520351160221518043104131447711
              # 2788815009188499086581352357412492142272)%Q.
Proof.
  split; [lia|]. apply (exact_sums_agree 100). lia.
Defined.

(** ** Text written to [cout] *)

Section Text.

Local Open Scope string_scope.

Lemma append_assoc (a b c : string) : (a ++ b) ++ c = a ++ (b ++ c).
Proof.
  induction a as [|x a IH]; cbn [append]; [reflexivity|]. rewrite IH. reflexivity.
Qed.

Lemma append_empty_r (a : string) : a ++ EmptyString = a.
Proof.
  induction a as [|x a IH]; cbn [append]; [reflexivity|]. rewrite IH. reflexivity.
Qed.

Lemma no_newline_append (a b : string) :
  no_newline (a ++ b) = no_newline a && no_newline b.
Proof.
  induction a as [|x a IH]; cbn [append no_newline]; [reflexivity|].
  rewrite IH. apply andb_assoc.
Qed.

Lemma no_newline_substring (s : string) : forall n m,
  no_newline s = true -> no_newline (substring n m s) = true.
Proof.
  induction s as [|x s IH]; intros n m H.
  - destruct n, m; reflexivity.
  - cbn [no_newline] in H. apply andb_true_iff in H. destruct H as [Hx Hs].
    destruct n as [|n]; [destruct m as [|m]|]; cbn [substring no_newline].
    + reflexivity.
    + rewrite Hx. apply IH, Hs.
    + apply IH, Hs.
Qed.

Lemma no_newline_strip_zeros (s : string) :
  no_newline s = true -> no_newline (Fmt.strip_zeros s) = true.
Proof.
  induction s as [|x s IH]; intros H; [reflexivity|].
  cbn [no_newline] in H. apply andb_true_iff in H. destruct H as [Hx Hs].
  cbn [Fmt.strip_zeros]. specialize (IH Hs).
  destruct (Fmt.strip_zeros s) as [|y r].
  - destruct (Ascii.eqb x "0"); cbn [no_newline]; [reflexivity|].
    rewrite Hx. reflexivity.
  - cbn [no_newline] in *. rewrite Hx. exact IH.
Qed.

Lemma no_newline_zeros (n : nat) : no_newline (Fmt.zeros n) = true.
Proof. induction n as [|n IH]; [reflexivity|]. cbn [Fmt.zeros no_newline]. exact IH. Qed.

Lemma digit_char_no_newline (d : Z) :
  (0 <= d < 10)%Z -> no_newline_char (Fmt.digit_char d) = true.
Proof.
  intros H.
  assert (E : exists k : nat, (k < 10)%nat /\ d = Z.of_nat k)
    by (exists (Z.to_nat d); lia).
  destruct E as [k [Hk ->]].
  do 10 (destruct k as [|k]; [reflexivity|]). lia.
Qed.

Lemma no_newline_decimal (w : nat) : forall n acc,
  no_newline acc = true -> no_newline (Fmt.decimal w n acc) = true.
Proof.
  induction w as [|w IH]; intros n acc H; [exact H|].
  cbn [Fmt.decimal]. apply IH. cbn [no_newline].
  rewrite digit_char_no_newline by (apply Z.mod_pos_bound; lia). exact H.
Qed.

Lemma no_newline_with_fraction (int frac : string) :
  no_newline int = true -> no_newline frac = true ->
  no_newline (Fmt.with_fraction int frac) = true.
Proof.
  intros Hi Hf. unfold Fmt.with_fraction.
  pose proof (no_newline_strip_zeros frac Hf) as Hz.
  destruct (Fmt.strip_zeros frac) as [|y r]; [exact Hi|].
  rewrite !no_newline_append, Hi, Hz. reflexivity.
Qed.

Lemma no_newline_exponent_field (x : Z) : no_newline (Fmt.exponent_field x) = true.
Proof.
  unfold Fmt.exponent_field. rewrite !no_newline_append.
  rewrite no_newline_decimal by reflexivity.
  destruct (x <? 0)%Z; reflexivity.
Qed.

Lemma no_newline_general (num den : Z) : no_newline (Fmt.general num den) = true.
Proof.
  unfold Fmt.general. destruct (Fmt.significand num den) as [d x].
  assert (D : no_newline (Fmt.decimal (Z.to_nat Fmt.precision) d EmptyString) = true)
    by (apply no_newline_decimal; reflexivity).
  destruct (_ && _).
  - destruct (0 <=? x)%Z.
    + apply no_newline_with_fraction; apply no_newline_substring, D.
    + apply no_newline_with_fraction; [reflexivity|].
      rewrite no_newline_append, no_newline_zeros, D. reflexivity.
  - rewrite no_newline_append, no_newline_exponent_field, andb_true_r.
    apply no_newline_with_fraction; apply no_newline_substring, D.
Qed.

(** A formatted number never holds a newline. *)
Lemma no_newline_format (x : spec_float) : no_newline (Fmt.format x) = true.
Proof.
  destruct x as [s|s| |s m e]; cbn [Fmt.format].
  - destruct s; reflexivity.
  - destruct s; reflexivity.
  - reflexivity.
  - rewrite no_newline_append. apply andb_true_iff. split.
    + destruct s; reflexivity.
    + destruct (0 <=? e)%Z; apply no_newline_general.
Qed.

(** A text without newline followed by a newline is one line. *)
Lemma lines_from_line (a : string) : forall cur rest,
  no_newline a = true ->
  lines_from cur (a ++ newline ++ rest) = (cur ++ a) :: lines_from EmptyString rest.
Proof.
  induction a as [|x a IH]; intros cur rest H.
  - rewrite append_empty_r. reflexivity.
  - cbn [no_newline] in H. apply andb_true_iff in H. destruct H as [Hx Ha].
    cbn [append lines_from]. unfold no_newline_char in Hx.
    apply negb_true_iff in Hx. rewrite Hx. rewrite IH by exact Ha.
    rewrite append_assoc. reflexivity.
Qed.

Lemma report_text (s : locals) (o : ostream) :
  report s o =
  o ++ line_float_sums s ++ newline ++ line_double_sums s ++ newline ++
  line_float_difference s ++ newline ++ line_double_difference s ++ newline.
Proof.
  unfold report, put_endl, put_float, put_double, put_string,
    line_float_sums, line_double_sums, line_float_difference,
    line_double_difference, show_float, show_double.
  rewrite !append_assoc. reflexivity.
Qed.

Lemma no_newline_line_float_sums s : no_newline (line_float_sums s) = true.
Proof.
  unfold line_float_sums, show_float.
  rewrite !no_newline_append, !no_newline_format. reflexivity.
Qed.

Lemma no_newline_line_double_sums s : no_newline (line_double_sums s) = true.
Proof.
  unfold line_double_sums, show_double.
  rewrite !no_newline_append, !no_newline_format. reflexivity.
Qed.

Lemma no_newline_line_float_difference s : no_newline (line_float_difference s) = true.
Proof.
  unfold line_float_difference, show_float.
  rewrite !no_newline_append, !no_newline_format. reflexivity.
Qed.

Lemma no_newline_line_double_difference s : no_newline (line_double_difference s) = true.
Proof.
  unfold line_double_difference, show_double.
  rewrite !no_newline_append, !no_newline_format. reflexivity.
Qed.

(** Whatever the locals hold, the report is four lines. *)
Lemma report_lines (s : locals) :
  lines (report s EmptyString) =
  [line_float_sums s; line_double_sums s;
   line_float_difference s; line_double_difference s].
Proof.
  rewrite report_text. unfold lines. cbn [append].
  rewrite lines_from_line by apply no_newline_line_float_sums.
  rewrite lines_from_line by apply no_newline_line_double_sums.
  rewrite lines_from_line by apply no_newline_line_float_difference.
  rewrite <- (append_empty_r newline).
  rewrite lines_from_line by apply no_newline_line_double_difference.
  reflexivity.
Qed.

End Text.

(** ** The whole program *)

Lemma report_final : report final_locals EmptyString = expected_output.
Proof. vm_compute. reflexivity. Qed.

Lemma main_enough (fuel : nat) :
  (100 <= fuel)%nat -> main fuel = Done (expected_output, 0).
Proof.
  intros H. unfold main. rewrite sums_value by exact H. cbn [bind].
  rewrite report_final. reflexivity.
Qed.

Lemma main_cases (fuel : nat) :
  main fuel = OutOfFuel \/ main fuel = Done (expected_output, 0).
Proof.
  destruct (le_lt_dec 100 fuel) as [H|H].
  - right. apply main_enough, H.
  - left. unfold main. rewrite sums_short by exact H. reflexivity.
Qed.

Lemma main_done (fuel : nat) (out : ostream) (code : Z) :
  main fuel = Done (out, code) ->
  exists s, sums fuel = Done s /\ out = report s EmptyString /\ code = 0.
Proof.
  unfold main. destruct (sums fuel) as [s| |]; cbn [bind]; try discriminate.
  intros H. injection H as <- <-. exists s. repeat split.
Qed.

Lemma spec_float_eqb_eq (a b : spec_float) : spec_float_eqb a b = true <-> a = b.
Proof.
  split.
  - destruct a as [s|s| |s m e], b as [s'|s'| |s' m' e']; cbn [spec_float_eqb];
      try discriminate; intros H.
    + apply Bool.eqb_prop in H. congruence.
    + apply Bool.eqb_prop in H. congruence.
    + reflexivity.
    + apply andb_true_iff in H. destruct H as [H He].
      apply andb_true_iff in H. destruct H as [Hs Hm].
      apply Bool.eqb_prop in Hs. apply Pos.eqb_eq in Hm. apply Z.eqb_eq in He.
      congruence.
  - intros <-. destruct a as [s|s| |s m e]; cbn [spec_float_eqb].
    + apply Bool.eqb_reflx.
    + apply Bool.eqb_reflx.
    + reflexivity.
    + rewrite Bool.eqb_reflx, Pos.eqb_refl, Z.eqb_refl. reflexivity.
Qed.

(** ** Precision of the [float] update *)

(** C2, as stated, fails. When the descending loop reaches [i = 98] the term
    [1.0 / 98] is a binary64 quotient that no binary32 division produces, and
    the value stored in [f2] differs from the one a binary32 division and a
    binary32 addition would store. *)
Lemma float_term_not_reduced_precision :
  let s := fold_left backward_step [100; 99]
             (fold_left forward_step ascending init_locals) in
  foldM backward_body [100; 99] (fold_left forward_step ascending init_locals) = Done s /\
  one_over 98 = Done (S754_finite false 5882252574524729 (-59)) /\
  double_of_float (one_over_float 98) = S754_finite false 5882252454002688 (-59) /\
  exists s',
    backward_body 98 s = Done s' /\
    f2 s' = S754_finite false 16269923 (-29) /\
    float_step_reduced (f2 s) 98 = S754_finite false 16269922 (-29) /\
    f2 s' <> float_step_reduced (f2 s) 98.
Proof.
  cbv zeta. split; [vm_compute; reflexivity|].
  split; [vm_compute; reflexivity|].
  split; [vm_compute; reflexivity|].
  eexists. split; [vm_compute; reflexivity|].
  cbn [f2]. split; [reflexivity|].
  split; [vm_compute; reflexivity|].
  vm_compute. discriminate.
Qed.

(** C2, amended. For every [n] in [1 .. 100] and in both loops the term is
    the binary64 quotient of [1.0] by [n] converted to [double]; the [float]
    accumulator is converted to [double], the sum is a binary64 sum, and
    it is rounded once to binary32 when stored. Rounded to binary32 the term
    equals the binary32 quotient, and it is a binary32 value exactly when [n]
    is a power of two. *)
Theorem float_term_is_double_quotient (n : Z) (s : locals) :
  1 <= n <= 100 ->
  one_over n = Done (ddiv lit_1_0 (double_of_int n)) /\
  (exists s', forward_body n s = Done s' /\
     f1 s' = float_of_double (dadd (double_of_float (f1 s)) (ddiv lit_1_0 (double_of_int n)))) /\
  (exists s', backward_body n s = Done s' /\
     f2 s' = float_of_double (dadd (double_of_float (f2 s)) (ddiv lit_1_0 (double_of_int n)))) /\
  float_of_double (ddiv lit_1_0 (double_of_int n)) = one_over_float n /\
  (ddiv lit_1_0 (double_of_int n) = double_of_float (one_over_float n) <->
   In n [1; 2; 4; 8; 16; 32; 64]).
Proof.
  intros H. split; [apply one_over_defined, H|].
  split; [eexists; split; [apply forward_body_defined, H | reflexivity]|].
  split; [eexists; split; [apply backward_body_defined, H | reflexivity]|].
  apply in_ascending in H. split.
  - assert (A : forallb (fun n => spec_float_eqb (float_of_double (quotient n))
                                    (one_over_float n)) ascending = true)
      by (vm_compute; reflexivity).
    rewrite forallb_forall in A. apply spec_float_eqb_eq, A, H.
  - assert (A : forallb (fun n => Bool.eqb
                   (spec_float_eqb (quotient n) (double_of_float (one_over_float n)))
                   (existsb (Z.eqb n) [1; 2; 4; 8; 16; 32; 64])) ascending = true)
      by (vm_compute; reflexivity).
    rewrite forallb_forall in A. specialize (A n H). apply Bool.eqb_prop in A.
    fold (quotient n). rewrite <- spec_float_eqb_eq, A, existsb_exists.
    split.
    + intros [x [Hx Hn]]. apply Z.eqb_eq in Hn. subst x. exact Hx.
    + intros Hn. exists n. split; [exact Hn | apply Z.eqb_refl].
Qed.

Lemma float_term_is_double_quotient_witness :
  1 <= 3 <= 100 /\
  one_over 3 = Done (ddiv lit_1_0 (double_of_int 3)) /\
  float_of_double (ddiv lit_1_0 (double_of_int 3)) = one_over_float 3 /\
  (ddiv lit_1_0 (double_of_int 3) = double_of_float (one_over_float 3) <->
   In 3 [1; 2; 4; 8; 16; 32; 64]).
Proof.
  split; [lia|].
  destruct (float_term_is_double_quotient 3 init_locals) as [A [_ [_ [B C]]]]; [lia|].
  split; [exact A|]. split; [exact B | exact C].
Defined.

(** ** The printed sums and differences *)

(** C3. The two [float] sums differ, as data and under the IEEE comparison;
    their [float] difference is [2 ^ -20], not zero. The third line [main]
    writes is [Float difference: 9.53674e-07], where a zero difference would
    be written [Float difference: 0]. *)
Theorem float_sums_differ (fuel : nat) :
  (100 <= fuel)%nat ->
  exists s,
    sums fuel = Done s /\
    f1 s <> f2 s /\
    SFeqb (f1 s) (f2 s) = false /\
    is_zero (fsub (f1 s) (f2 s)) = false /\
    (value (fsub (f1 s) (f2 s)) == 1 # 1048576)%Q /\
    (value (f1 s) - value (f2 s) == 1 # 1048576)%Q /\
    line_float_difference s = "Float difference: 9.53674e-07"%string /\
    exists out,
      main fuel = Done (out, 0) /\
      out = report s EmptyString /\
      nth_error (lines out) 2 = Some "Float difference: 9.53674e-07"%string /\
      nth_error (lines (report {| f1 := f1 s; f2 := f1 s; dub1 := dub1 s; dub2 := dub2 s |}
                            EmptyString)) 2
        = Some "Float difference: 0"%string /\
      nth_error (lines out) 2
        <> nth_error (lines (report {| f1 := f1 s; f2 := f1 s; dub1 := dub1 s; dub2 := dub2 s |}
                            EmptyString)) 2.
Proof.
  intros H. exists final_locals. split; [apply sums_value, H|].
  split; [cbn; discriminate|].
  do 5 (split; [vm_compute; reflexivity|]).
  exists expected_output. split; [apply main_enough, H|].
  split; [symmetry; apply report_final|].
  split; [vm_compute; reflexivity|].
  split; [vm_compute; reflexivity|].
  vm_compute. discriminate.
Qed.

Lemma float_sums_differ_witness :
  (100 <= 100)%nat /\
  exists s,
    sums 100 = Done s /\
    f1 s <> f2 s /\
    SFeqb (f1 s) (f2 s) = false /\
    is_zero (fsub (f1 s) (f2 s)) = false /\
    (value (fsub (f1 s) (f2 s)) == 1 # 1048576)%Q /\
    (value (f1 s) - value (f2 s) == 1 # 1048576)%Q /\
    line_float_difference s = "Float difference: 9.53674e-07"%string /\
    exists out,
      main 100 = Done (out, 0) /\
      nth_error (lines out) 2 = Some "Float difference: 9.53674e-07"%string.
Proof.
  split; [lia|].
  destruct (float_sums_differ 100) as [s [A [B [C [D [E [F [G [out [I [_ [J _]]]]]]]]]]]]; [lia|].
  exists s. do 7 (split; [assumption|]). exists out. split; assumption.
Defined.

(** C4. The [double] sums are closer to each other than the [float] sums:
    [|dub1 - dub2| = 2 ^ -50 < 2 ^ -20 = |f1 - f2|], for the differences the
    program computes and for the exact differences of the values. *)
Theorem double_difference_smaller (fuel : nat) :
  (100 <= fuel)%nat ->
  exists s,
    sums fuel = Done s /\
    SFltb (SFabs (dsub (dub1 s) (dub2 s)))
          (double_of_float (SFabs (fsub (f1 s) (f2 s)))) = true /\
    (Qabs (value (dsub (dub1 s) (dub2 s))) < Qabs (value (fsub (f1 s) (f2 s))))%Q /\
    (Qabs (value (dub1 s) - value (dub2 s)) < Qabs (value (f1 s) - value (f2 s)))%Q /\
    (Qabs (value (dub1 s) - value (dub2 s)) == 1 # 1125899906842624)%Q /\
    (Qabs (value (f1 s) - value (f2 s)) == 1 # 1048576)%Q.
Proof.
  intros H. exists final_locals. split; [apply sums_value, H|].
  repeat split; vm_compute; reflexivity.
Qed.

Lemma double_difference_smaller_witness :
  (100 <= 100)%nat /\
  exists s,
    sums 100 = Done s /\
    SFltb (SFabs (dsub (dub1 s) (dub2 s)))
          (double_of_float (SFabs (fsub (f1 s) (f2 s)))) = true /\
    (Qabs (value (dsub (dub1 s) (dub2 s))) < Qabs (value (fsub (f1 s) (f2 s))))%Q /\
    (Qabs (value (dub1 s) - value (dub2 s)) < Qabs (value (f1 s) - value (f2 s)))%Q /\
    (Qabs (value (dub1 s) - value (dub2 s)) == 1 # 1125899906842624)%Q /\
    (Qabs (value (f1 s) - value (f2 s)) == 1 # 1048576)%Q.
Proof.
  split; [lia|]. apply (double_difference_smaller 100). lia.
Defined.

(** ** The divisor *)

(** C5. The ascending loop runs its body with [i = 1, 2, ..., 100] and the
    descending loop with [i = 100, 99, ..., 1]; every one of these values is
    non-zero and converts to a non-zero [double], so [1.0 / i] is defined at
    every iteration, and no run of the loops or of [main] ends in undefined
    behaviour. *)
Theorem divisor_never_zero (fuel : nat) :
  (100 <= fuel)%nat ->
  for_up fuel record_index [] = Done (map Z.of_nat (seq 1 100)) /\
  for_down fuel record_index [] = Done (rev (map Z.of_nat (seq 1 100))) /\
  (forall i, In i (map Z.of_nat (seq 1 100)) ->
     1 <= i <= 100 /\ i <> 0 /\ is_zero (double_of_int i) = false /\
     one_over i = Done (quotient i)) /\
  (forall k : nat, sums k <> Undefined /\ main k <> Undefined).
Proof.
  intros H. split; [|split; [|split]].
  - rewrite for_up_enough by exact H. vm_compute. reflexivity.
  - rewrite for_down_enough by exact H. vm_compute. reflexivity.
  - intros i Hi. change (map Z.of_nat (seq 1 100)) with ascending in Hi.
    apply in_ascending in Hi. split; [exact Hi|]. split; [lia|].
    split; [apply divisor_nonzero, Hi | apply one_over_defined, Hi].
  - intros k. split.
    + destruct (sums_cases k) as [E|E]; rewrite E; discriminate.
    + destruct (main_cases k) as [E|E]; rewrite E; discriminate.
Qed.

Lemma divisor_never_zero_witness :
  (100 <= 100)%nat /\
  for_up 100 record_index [] = Done (map Z.of_nat (seq 1 100)) /\
  for_down 100 record_index [] = Done (rev (map Z.of_nat (seq 1 100))) /\
  one_over 100 = Done (quotient 100) /\
  main 100 <> Undefined.
Proof.
  split; [lia|].
  destruct (divisor_never_zero 100) as [A [B [C D]]]; [lia|].
  split; [exact A|]. split; [exact B|]. split.
  - apply C. apply in_map_iff. exists 100%nat. split; [reflexivity|].
    apply in_seq. lia.
  - apply D.
Defined.

(** ** Runs *)

Lemma step_deterministic (c c1 c2 : config) : step c c1 -> step c c2 -> c1 = c2.
Proof.
  intros H1 H2. inversion H1; subst; inversion H2; subst;
    try reflexivity; congruence.
Qed.

Lemma exited_is_final (o : ostream) (k : Z) (c : config) : ~ step (Exited o k) c.
Proof. intros H. inversion H. Qed.

Lemma reaches_trans (a b c : config) : reaches a b -> reaches b c -> reaches a c.
Proof.
  intros H. induction H as [|x y z Hs _ IH]; intros Hc; [exact Hc|].
  eapply reaches_step; [exact Hs | apply IH, Hc].
Qed.

(** A run that exits can only exit one way. *)
Lemma exits_unique (c : config) (o1 o2 : ostream) (k1 k2 : Z) :
  exits c o1 k1 -> exits c o2 k2 -> o1 = o2 /\ k1 = k2.
Proof.
  unfold exits. intros H1. remember (Exited o1 k1) as e eqn:E.
  induction H1 as [c|c c' c'' Hs _ IH]; intros H2.
  - subst c. inversion H2; subst.
    + split; reflexivity.
    + exfalso. eapply exited_is_final. eassumption.
  - inversion H2; subst.
    + exfalso. eapply exited_is_final. eassumption.
    + apply IH; [reflexivity|].
      match goal with
      | Hs' : step c ?d, Hr : reaches ?d _ |- _ =>
          rewrite (step_deterministic c c' d Hs Hs'); exact Hr
      end.
Qed.

(** Every configuration on the way of a run that exits still exits, the same
    way: no continuation is stuck or runs for ever. *)
Lemma exits_along (c c' : config) (o : ostream) (k : Z) :
  exits c o k -> reaches c c' -> exits c' o k.
Proof.
  unfold exits. intros He Hr. induction Hr as [c|c d c' Hs _ IH]; [exact He|].
  apply IH. inversion He; subst.
  - exfalso. eapply exited_is_final. eassumption.
  - match goal with
    | Hs' : step c ?d', Hr' : reaches ?d' _ |- _ =>
        rewrite (step_deterministic c d d' Hs Hs'); exact Hr'
    end.
Qed.

Lemma incr_in_loop (i : Z) : 1 <= i <= 100 -> incr i = Done (i + 1).
Proof.
  intros H. unfold incr, in_int, INT_MIN, INT_MAX.
  replace (_ && _) with true; [reflexivity|].
  symmetry. apply andb_true_iff. split; apply Z.leb_le; lia.
Qed.

Lemma decr_in_loop (i : Z) : 1 <= i <= 100 -> decr i = Done (i - 1).
Proof.
  intros H. unfold decr, in_int, INT_MIN, INT_MAX.
  replace (_ && _) with true; [reflexivity|].
  symmetry. apply andb_true_iff. split; apply Z.leb_le; lia.
Qed.

(** The first loop, from its test with [k] iterations to go. *)
Lemma up_loop_reaches (env : environment) (o : ostream) (k : nat) :
  forall (i : Z) (v : locals),
    1 <= i -> i + Z.of_nat k = 101 ->
    reaches (At L_up_test (mkStore env v i o))
            (At L_up_test (mkStore env (fold_left forward_step (range_up i k) v) 101 o)).
Proof.
  induction k as [|k IH]; intros i v Hi Hk.
  - replace i with 101 by lia. apply reaches_here.
  - cbn [range_up fold_left].
    eapply reaches_step.
    { apply step_up_enter. unfold up_cond. cbn [st_i]. apply Z.ltb_lt. lia. }
    eapply reaches_step.
    { apply (step_up_float _ (quotient i)). cbn [st_i]. apply one_over_defined. lia. }
    eapply reaches_step.
    { apply (step_up_double _ (quotient i)). cbn [st_i set_vars]. apply one_over_defined. lia. }
    eapply reaches_step.
    { apply (step_up_incr _ (i + 1)). cbn [st_i set_vars]. apply incr_in_loop. lia. }
    apply (IH (i + 1) (forward_step v i)); lia.
Qed.

(** The second loop, from its test with [k] iterations to go. *)
Lemma down_loop_reaches (env : environment) (o : ostream) (k : nat) :
  forall (i : Z) (v : locals),
    i <= 100 -> i = Z.of_nat k ->
    reaches (At L_down_test (mkStore env v i o))
            (At L_down_test (mkStore env (fold_left backward_step (range_down i k) v) 0 o)).
Proof.
  induction k as [|k IH]; intros i v Hi Hk.
  - replace i with 0 by lia. apply reaches_here.
  - cbn [range_down fold_left].
    eapply reaches_step.
    { apply step_down_enter. unfold down_cond. cbn [st_i]. apply Z.gtb_gt. lia. }
    eapply reaches_step.
    { apply (step_down_float _ (quotient i)). cbn [st_i]. apply one_over_defined. lia. }
    eapply reaches_step.
    { apply (step_down_double _ (quotient i)). cbn [st_i set_vars]. apply one_over_defined. lia. }
    eapply reaches_step.
    { apply (step_down_decr _ (i - 1)). cbn [st_i set_vars]. apply decr_in_loop. lia. }
    apply (IH (i - 1) (backward_step v i)); lia.
Qed.

Lemma report_statements (s : locals) (o : ostream) :
  report s o =
  print_double_difference s (print_float_difference s
    (print_double_sums s (print_float_sums s o))).
Proof. reflexivity. Qed.

(** Started with anything, the process runs through both loops and the four
    output statements and returns 0. *)
Lemma program_exits (env : environment) (garbage : locals) (j : Z) :
  exits (initial env garbage j) expected_output 0.
Proof.
  unfold exits, initial.
  eapply reaches_step; [apply step_f1_decl|].
  eapply reaches_step; [apply step_f2_decl|].
  eapply reaches_step; [apply step_dub1_decl|].
  eapply reaches_step; [apply step_dub2_decl|].
  eapply reaches_step; [apply step_up_init|].
  cbn [set_vars set_i set_f1 set_f2 set_dub1 set_dub2 st_env st_vars st_i st_cout
       f1 f2 dub1 dub2].
  eapply reaches_trans.
  { apply (up_loop_reaches env EmptyString 100 1); [lia | reflexivity]. }
  eapply reaches_step.
  { apply step_up_leave. reflexivity. }
  eapply reaches_step; [apply step_down_init|].
  cbn [set_i st_env st_vars st_i st_cout].
  eapply reaches_trans.
  { apply (down_loop_reaches env EmptyString 100 100); [lia | reflexivity]. }
  eapply reaches_step.
  { apply step_down_leave. reflexivity. }
  eapply reaches_step; [apply step_print_float_sums|].
  eapply reaches_step; [apply step_print_double_sums|].
  eapply reaches_step; [apply step_print_float_difference|].
  eapply reaches_step; [apply step_print_double_difference|].
  eapply reaches_step; [apply step_return|].
  cbn [set_cout st_env st_vars st_i st_cout].
  rewrite <- report_statements.
  replace (report _ EmptyString) with expected_output; [apply reaches_here|].
  symmetry. vm_compute. reflexivity.
Qed.

(** C6. Every run of the program writes the same text. A process started
    with any command line, environment and input, and with any contents
    where its variables will live, runs statement by statement to
    [return 0], and the text on standard output is then the four lines of
    [expected_output]; no run ends any other way, and no continuation of a
    run is stuck or endless. The same holds of the runs of [main] as a
    function, for every amount of fuel that lets it finish. *)
Theorem output_deterministic (env1 env2 : environment) (garbage1 garbage2 : locals)
    (j1 j2 : Z) :
  exists out : ostream,
    out = expected_output /\
    exits (initial env1 garbage1 j1) out 0 /\
    exits (initial env2 garbage2 j2) out 0 /\
    (forall out' code',
       exits (initial env1 garbage1 j1) out' code' \/
       exits (initial env2 garbage2 j2) out' code' ->
       out' = out /\ code' = 0) /\
    (forall c,
       reaches (initial env1 garbage1 j1) c \/ reaches (initial env2 garbage2 j2) c ->
       exits c out 0) /\
    (forall fuel : nat, (100 <= fuel)%nat ->
       run env1 fuel = Done (out, 0) /\ run env2 fuel = Done (out, 0)) /\
    (forall (fuel1 fuel2 : nat) out1 code1 out2 code2,
       run env1 fuel1 = Done (out1, code1) ->
       run env2 fuel2 = Done (out2, code2) ->
       out1 = out /\ out2 = out).
Proof.
  exists expected_output.
  split; [reflexivity|].
  split; [apply program_exits|]. split; [apply program_exits|].
  split; [|split; [|split]].
  - intros out' code' [H|H];
      (eapply exits_unique; [exact H | apply program_exits]).
  - intros c [H|H]; (eapply exits_along; [apply program_exits | exact H]).
  - intros fuel H. unfold run. split; apply main_enough, H.
  - unfold run. intros fuel1 fuel2 out1 code1 out2 code2 H1 H2.
    destruct (main_cases fuel1) as [E1|E1]; rewrite E1 in H1; [discriminate|].
    destruct (main_cases fuel2) as [E2|E2]; rewrite E2 in H2; [discriminate|].
    split; congruence.
Qed.

(** C7. A finished run has written exactly four lines, in this order: the
    two [float] sums, the two [double] sums, the [float] difference, the
    [double] difference, each in the stated format; for the values the loops
    compute these are the four lines listed last. *)
Theorem output_four_lines (fuel : nat) (out : ostream) (code : Z) :
  main fuel = Done (out, code) ->
  exists s,
    sums fuel = Done s /\
    out = ("Float forward: " ++ show_float (f1 s) ++
           ", Float backward: " ++ show_float (f2 s) ++ newline ++
           "Double forward: " ++ show_double (dub1 s) ++
           ", Double backward: " ++ show_double (dub2 s) ++ newline ++
           "Float difference: " ++ show_float (fsub (f1 s) (f2 s)) ++ newline ++
           "Double difference: " ++ show_double (dsub (dub1 s) (dub2 s)) ++ newline)%string /\
    lines out =
      [ ("Float forward: " ++ show_float (f1 s) ++
         ", Float backward: " ++ show_float (f2 s))%string;
        ("Double forward: " ++ show_double (dub1 s) ++
         ", Double backward: " ++ show_double (dub2 s))%string;
        ("Float difference: " ++ show_float (fsub (f1 s) (f2 s)))%string;
        ("Double difference: " ++ show_double (dsub (dub1 s) (dub2 s)))%string ] /\
    lines out =
      [ "Float forward: 5.18738, Float backward: 5.18738"%string;
        "Double forward: 5.18738, Double backward: 5.18738"%string;
        "Float difference: 9.53674e-07"%string;
        "Double difference: -8.88178e-16"%string ].
Proof.
  intros H. destruct (main_done fuel out code H) as [s [Hs [Ho _]]].
  exists s. split; [exact Hs|]. split; [|split].
  - rewrite Ho, report_text. cbn [append].
    unfold line_float_sums, line_double_sums, line_float_difference,
      line_double_difference.
    rewrite !append_assoc. reflexivity.
  - rewrite Ho. apply report_lines.
  - destruct (main_cases fuel) as [E|E]; rewrite E in H; [discriminate|].
    injection H as <- _. vm_compute. reflexivity.
Qed.

Lemma output_four_lines_witness :
  main 100 = Done (expected_output, 0) /\
  lines expected_output =
    [ "Float forward: 5.18738, Float backward: 5.18738"%string;
      "Double forward: 5.18738, Double backward: 5.18738"%string;
      "Float difference: 9.53674e-07"%string;
      "Double difference: -8.88178e-16"%string ].
Proof.
  assert (A : main 100 = Done (expected_output, 0)) by (vm_compute; reflexivity).
  split; [exact A|].
  destruct (output_four_lines 100 expected_output 0 A) as [s [_ [_ [_ L]]]].
  exact L.
Defined.

(** C8. With fuel for the 200 iterations of the two loops every run ends,
    and it ends by returning 0; no run returns anything else or meets
    undefined behaviour, whatever it was started with. *)
Theorem exit_code_zero (env : environment) (fuel : nat) :
  (100 <= fuel)%nat ->
  (exists out, run env fuel = Done (out, 0)) /\
  (forall env' k out code, run env' k = Done (out, code) -> code = 0) /\
  (forall env' k, run env' k <> Undefined).
Proof.
  intros H. unfold run. split; [|split].
  - exists expected_output. apply main_enough, H.
  - intros _ k out code Hk. destruct (main_done k out code Hk) as [s [_ [_ Hc]]].
    exact Hc.
  - intros _ k. destruct (main_cases k) as [E|E]; rewrite E; discriminate.
Qed.

Lemma exit_code_zero_witness :
  (100 <= 100)%nat /\
  exists out,
    run {| argv := ["hw1d"%string]; envp := ["HOME=/"%string]; stdin := EmptyString |} 100
    = Done (out, 0).
Proof.
  split; [lia|].
  apply (exit_code_zero
           {| argv := ["hw1d"%string]; envp := ["HOME=/"%string]; stdin := EmptyString |} 100).
  lia.
Defined.

(** ** Further properties of the loops *)

Lemma range_down_snoc (k : nat) : forall i,
  range_down i (S k) = range_down i k ++ [i - Z.of_nat k].
Proof.
  induction k as [|k IH]; intros i.
  - cbn. f_equal. f_equal. lia.
  - change (range_down i (S (S k))) with (i :: range_down (i - 1) (S k)).
    rewrite IH. cbn [range_down app]. do 3 f_equal. lia.
Qed.

Lemma forward_state_succ (k : nat) :
  forward_state (S k) = forward_step (forward_state k) (1 + Z.of_nat k).
Proof.
  unfold forward_state. rewrite range_up_snoc, fold_left_app. reflexivity.
Qed.

Lemma backward_state_succ (k : nat) :
  backward_state (S k) = backward_step (backward_state k) (100 - Z.of_nat k).
Proof.
  unfold backward_state. rewrite range_down_snoc, fold_left_app. reflexivity.
Qed.

Lemma Qlt_bool_lt (a b : Q) : Qlt_bool a b = true -> (a < b)%Q.
Proof.
  unfold Qlt_bool. destruct (a ?= b)%Q eqn:E; try discriminate.
  intros _. apply Qlt_alt. exact E.
Qed.

Lemma grows_spec (x y : spec_float) :
  grows x y = true ->
  positive_finite y = true /\ (value x < value y)%Q /\ (value y < 6)%Q.
Proof.
  unfold grows. intros H.
  apply andb_true_iff in H. destruct H as [H H3].
  apply andb_true_iff in H. destruct H as [H1 H2].
  split; [exact H1|]. split; apply Qlt_bool_lt; assumption.
Qed.

Lemma in_seq_100 (k : nat) : (k < 100)%nat -> In k (seq 0 100).
Proof. intros H. apply in_seq. lia. Qed.

Lemma all_grow_at (step : locals -> Z -> locals) (acc1 acc2 : locals -> spec_float)
    (l1 : list Z) : forall (n : Z) (l2 : list Z) (s : locals),
  all_grow step acc1 acc2 (l1 ++ n :: l2) s = true ->
  grows (acc1 (fold_left step l1 s)) (acc1 (step (fold_left step l1 s) n)) = true /\
  grows (acc2 (fold_left step l1 s)) (acc2 (step (fold_left step l1 s) n)) = true.
Proof.
  induction l1 as [|m l1 IH]; intros n l2 s H; cbn [app all_grow fold_left] in *.
  - apply andb_true_iff in H. destruct H as [H _].
    apply andb_true_iff in H. exact H.
  - apply andb_true_iff in H. destruct H as [_ H]. apply (IH n l2), H.
Qed.

Lemma range_up_split (k : nat) : forall (n : nat) (i : Z),
  (k < n)%nat ->
  range_up i n = range_up i k ++ (i + Z.of_nat k) :: range_up (i + Z.of_nat k + 1) (n - S k).
Proof.
  induction k as [|k IH]; intros n i H.
  - destruct n as [|n]; [lia|]. cbn [range_up app].
    replace (i + Z.of_nat 0) with i by lia.
    replace (S n - 1)%nat with n by lia. reflexivity.
  - destruct n as [|n]; [lia|]. cbn [range_up app].
    rewrite (IH n (i + 1)) by lia.
    replace (i + 1 + Z.of_nat k) with (i + Z.of_nat (S k)) by lia.
    reflexivity.
Qed.

Lemma range_down_split (k : nat) : forall (n : nat) (i : Z),
  (k < n)%nat ->
  range_down i n =
  range_down i k ++ (i - Z.of_nat k) :: range_down (i - Z.of_nat k - 1) (n - S k).
Proof.
  induction k as [|k IH]; intros n i H.
  - destruct n as [|n]; [lia|]. cbn [range_down app].
    replace (i - Z.of_nat 0) with i by lia.
    replace (S n - 1)%nat with n by lia. reflexivity.
  - destruct n as [|n]; [lia|]. cbn [range_down app].
    rewrite (IH n (i - 1)) by lia.
    replace (i - 1 - Z.of_nat k) with (i - Z.of_nat (S k)) by lia.
    reflexivity.
Qed.

Lemma forward_all_grow : all_grow forward_step f1 dub1 ascending init_locals = true.
Proof. vm_compute. reflexivity. Qed.

Lemma backward_all_grow :
  all_grow backward_step f2 dub2 descending (forward_state 100) = true.
Proof. vm_compute. reflexivity. Qed.

(** X1. Each loop writes its own two variables only, and each of the two from
    its own old value: from any starting values, the first loop leaves [f2]
    and [dub2] as they were and the second leaves [f1] and [dub1]; what the
    first loop leaves in [f1] is what the [float] statement alone makes of
    the old [f1], and likewise for [dub1], [f2] and [dub2]. *)
Theorem loops_frame (fuel : nat) (s s1 s2 : locals) :
  for_up fuel forward_body s = Done s1 ->
  for_down fuel backward_body s1 = Done s2 ->
  (f2 s1 = f2 s /\ dub2 s1 = dub2 s) /\
  (f1 s2 = f1 s1 /\ dub1 s2 = dub1 s1) /\
  for_up fuel float_body (f1 s) = Done (f1 s1) /\
  for_up fuel double_body (dub1 s) = Done (dub1 s1) /\
  for_down fuel float_body (f2 s) = Done (f2 s2) /\
  for_down fuel double_body (dub2 s) = Done (dub2 s2).
Proof.
  unfold for_up, for_down. rewrite forward_lockstep, backward_lockstep.
  destruct (for_loop fuel up_cond incr float_body 1 (f1 s)) as [a| |];
    cbn [bind]; try discriminate.
  destruct (for_loop fuel up_cond incr double_body 1 (dub1 s)) as [b| |];
    cbn [bind]; try discriminate.
  intros H1. injection H1 as <-. cbn [f1 f2 dub1 dub2].
  destruct (for_loop fuel down_cond decr float_body 100 (f2 s)) as [c| |];
    cbn [bind]; try discriminate.
  destruct (for_loop fuel down_cond decr double_body 100 (dub2 s)) as [d| |];
    cbn [bind]; try discriminate.
  intros H2. injection H2 as <-. cbn [f1 f2 dub1 dub2].
  repeat split.
Qed.

Lemma loops_frame_witness :
  for_up 100 forward_body init_locals = Done (forward_state 100) /\
  for_down 100 backward_body (forward_state 100) = Done final_locals /\
  f2 (forward_state 100) = f2 init_locals /\
  f1 final_locals = f1 (forward_state 100) /\
  for_down 100 double_body (dub2 init_locals) = Done (dub2 final_locals).
Proof.
  assert (A : for_up 100 forward_body init_locals = Done (forward_state 100))
    by (vm_compute; reflexivity).
  assert (B : for_down 100 backward_body (forward_state 100) = Done final_locals)
    by (vm_compute; reflexivity).
  split; [exact A|]. split; [exact B|].
  destruct (loops_frame 100 init_locals (forward_state 100) final_locals A B)
    as [[F _] [[G _] [_ [_ [_ D]]]]].
  split; [exact F|]. split; [exact G | exact D].
Defined.

(** X2. No addition of either loop is lost or overflows. The body of the
    first loop, run with [i = k + 1] on the locals left by [k] iterations,
    leaves [f1] and [dub1] finite, strictly greater than before and below 6;
    the body of the second loop, run with [i = 100 - k], does the same to
    [f2] and [dub2]. The chain starts at the initial locals and ends at the
    values that are printed. *)
Theorem accumulators_grow (k : nat) :
  (k < 100)%nat ->
  forward_state 0 = init_locals /\
  backward_state 0 = forward_state 100 /\
  sums 100 = Done (backward_state 100) /\
  forward_body (1 + Z.of_nat k) (forward_state k) = Done (forward_state (S k)) /\
  backward_body (100 - Z.of_nat k) (backward_state k) = Done (backward_state (S k)) /\
  (positive_finite (f1 (forward_state (S k))) = true /\
   (value (f1 (forward_state k)) < value (f1 (forward_state (S k))))%Q /\
   (value (f1 (forward_state (S k))) < 6)%Q) /\
  (positive_finite (dub1 (forward_state (S k))) = true /\
   (value (dub1 (forward_state k)) < value (dub1 (forward_state (S k))))%Q /\
   (value (dub1 (forward_state (S k))) < 6)%Q) /\
  (positive_finite (f2 (backward_state (S k))) = true /\
   (value (f2 (backward_state k)) < value (f2 (backward_state (S k))))%Q /\
   (value (f2 (backward_state (S k))) < 6)%Q) /\
  (positive_finite (dub2 (backward_state (S k))) = true /\
   (value (dub2 (backward_state k)) < value (dub2 (backward_state (S k))))%Q /\
   (value (dub2 (backward_state (S k))) < 6)%Q).
Proof.
  intros H.
  split; [reflexivity|]. split; [reflexivity|].
  split; [rewrite sums_enough by lia; reflexivity|].
  split; [rewrite forward_state_succ; apply forward_body_defined; lia|].
  split; [rewrite backward_state_succ; apply backward_body_defined; lia|].
  pose proof forward_all_grow as A. unfold ascending in A.
  rewrite (range_up_split k 100 1 H) in A.
  apply all_grow_at in A. destruct A as [A1 A2].
  pose proof backward_all_grow as B. unfold descending in B.
  rewrite (range_down_split k 100 100 H) in B.
  apply all_grow_at in B. destruct B as [B1 B2].
  rewrite (forward_state_succ k), (backward_state_succ k).
  split; [apply grows_spec, A1|]. split; [apply grows_spec, A2|].
  split; [apply grows_spec, B1 | apply grows_spec, B2].
Qed.

Lemma accumulators_grow_witness :
  (41 < 100)%nat /\
  forward_body 42 (forward_state 41) = Done (forward_state 42) /\
  backward_body 59 (backward_state 41) = Done (backward_state 42) /\
  (value (f1 (forward_state 41)) < value (f1 (forward_state 42)))%Q /\
  (value (f2 (backward_state 41)) < value (f2 (backward_state 42)))%Q.
Proof.
  split; [lia|].
  destruct (accumulators_grow 41) as [_ [_ [_ [A [B [[_ [C _]] [_ [[_ [D _]] _]]]]]]]]; [lia|].
  split; [exact A|]. split; [exact B|]. split; [exact C | exact D].
Defined.

Lemma all_steps_at (check : locals -> Z -> bool) (step : locals -> Z -> locals)
    (l1 : list Z) : forall (n : Z) (l2 : list Z) (s : locals),
  all_steps check step (l1 ++ n :: l2) s = true ->
  check (fold_left step l1 s) n = true.
Proof.
  induction l1 as [|m l1 IH]; intros n l2 s H; cbn [app all_steps fold_left] in *.
  - apply andb_true_iff in H. apply H.
  - apply andb_true_iff in H. destruct H as [_ H]. apply (IH n l2), H.
Qed.

(** ** Accuracy *)

(** X3. Against the exact sum [H(100)] that the same loops give in rational
    arithmetic: the two [float] sums lie on either side of it, the forward
    one less than [2 ^ -21] above and the backward one less than [2 ^ -20]
    below; both [double] sums lie above it, the forward one by less than
    [2 ^ -51] and the backward one by less than [2 ^ -49]. In both precisions
    the forward sum is the closer one. *)
Theorem sums_accuracy (fuel : nat) :
  (100 <= fuel)%nat ->
  exists (s : locals) (h : Q),
    sums fuel = Done s /\
    exact_forward fuel = Done h /\
    (h == harmonic 100)%Q /\
    (value (f2 s) < h)%Q /\ (h < value (f1 s))%Q /\
    (value (f1 s) - h < 1 # 2097152)%Q /\
    (h - value (f2 s) < 1 # 1048576)%Q /\
    (h < value (dub1 s))%Q /\ (value (dub1 s) < value (dub2 s))%Q /\
    (value (dub1 s) - h < 1 # 2251799813685248)%Q /\
    (value (dub2 s) - h < 1 # 562949953421312)%Q /\
    (value (f1 s) - h < h - value (f2 s))%Q.
Proof.
  intros H. exists final_locals, (fold_left exact_step ascending 0%Q).
  split; [apply sums_value, H|].
  split.
  { unfold exact_forward. rewrite for_up_enough by exact H.
    apply foldM_pure. intros i t Hi. apply exact_body_defined, in_ascending, Hi. }
  split.
  { rewrite fold_exact_step, harmonic_sum. unfold ascending. ring. }
  repeat split; vm_compute; reflexivity.
Qed.

Lemma sums_accuracy_witness :
  (100 <= 100)%nat /\
  exists (s : locals) (h : Q),
    sums 100 = Done s /\
    exact_forward 100 = Done h /\
    (value (f2 s) < h)%Q /\ (h < value (f1 s))%Q /\
    (h < value (dub1 s))%Q /\ (value (dub1 s) < value (dub2 s))%Q.
Proof.
  split; [lia|].
  destruct (sums_accuracy 100) as [s [h [A [B [_ [C [D [_ [_ [E [F _]]]]]]]]]]]; [lia|].
  exists s, h. repeat split; assumption.
Defined.

(** X4. Each term [1.0 / n], [n] in [1 .. 100], is a finite positive
    [double] within a relative error of [2 ^ -53] of [1 / n]; it is exactly
    [1 / n] only for the powers of two; and it is greater than the term for
    [n + 1]. *)
Theorem term_correctly_rounded (n : Z) :
  1 <= n <= 100 ->
  one_over n = Done (quotient n) /\
  positive_finite (quotient n) = true /\
  (Qabs (inject_Z n * value (quotient n) - 1) <= 1 # 9007199254740992)%Q /\
  ((value (quotient n) == 1 / inject_Z n)%Q <-> In n [1; 2; 4; 8; 16; 32; 64]) /\
  (value (quotient (n + 1)) < value (quotient n))%Q.
Proof.
  intros H. split; [apply one_over_defined, H|].
  assert (A : forallb term_checked ascending = true) by (vm_compute; reflexivity).
  rewrite forallb_forall in A. apply in_ascending in H. specialize (A n H).
  unfold term_checked in A.
  apply andb_true_iff in A. destruct A as [A A4].
  apply andb_true_iff in A. destruct A as [A A3].
  apply andb_true_iff in A. destruct A as [A1 A2].
  split; [exact A1|]. split; [apply Qle_bool_iff, A2|].
  split; [|apply Qlt_bool_lt, A4].
  apply Bool.eqb_prop in A3. rewrite <- Qeq_bool_iff, A3, existsb_exists.
  split.
  - intros [x [Hx Hn]]. apply Z.eqb_eq in Hn. subst x. exact Hx.
  - intros Hn. exists n. split; [exact Hn | apply Z.eqb_refl].
Qed.

Lemma term_correctly_rounded_witness :
  1 <= 3 <= 100 /\
  one_over 3 = Done (quotient 3) /\
  (Qabs (inject_Z 3 * value (quotient 3) - 1) <= 1 # 9007199254740992)%Q /\
  (value (quotient 4) < value (quotient 3))%Q.
Proof.
  split; [lia|].
  destruct (term_correctly_rounded 3) as [A [_ [B [_ C]]]]; [lia|].
  split; [exact A|]. split; [exact B | exact C].
Defined.

(** ** The loops in binary32 only *)

Lemma reduced_body_defined (n : Z) (f : float) :
  1 <= n <= 100 -> reduced_body n f = Done (float_step_reduced f n).
Proof.
  intros H. apply in_ascending in H.
  assert (A : forallb (fun i => negb (is_zero (float_of_int i))) ascending = true)
    by (vm_compute; reflexivity).
  rewrite forallb_forall in A. specialize (A n H). apply negb_true_iff in A.
  unfold reduced_body. rewrite A. reflexivity.
Qed.

Lemma forward_same_updates :
  all_steps (fun s n => same_update (f1 s) n) forward_step ascending init_locals = true.
Proof. vm_compute. reflexivity. Qed.

Lemma backward_updates :
  all_steps (fun s n => Bool.eqb (same_update (f2 s) n)
                          (negb (existsb (Z.eqb n) differing_divisors)))
    backward_step descending (forward_state 100) = true.
Proof. vm_compute. reflexivity. Qed.

Lemma side_by_side_at (check : Z -> float -> float -> bool) (l1 : list Z) :
  forall (n : Z) (l2 : list Z) (a b : float),
    side_by_side check (l1 ++ n :: l2) a b = true ->
    check n (fold_left float_step (l1 ++ [n]) a)
            (fold_left float_step_reduced (l1 ++ [n]) b) = true.
Proof.
  induction l1 as [|m l1 IH]; intros n l2 a b H;
    cbn [app side_by_side fold_left] in *.
  - apply andb_true_iff in H. apply H.
  - apply andb_true_iff in H. destruct H as [_ H]. apply (IH n l2), H.
Qed.

Lemma forward_side_by_side :
  side_by_side (fun _ a b => spec_float_eqb b a) ascending
    (float_of_double lit_0_0) (float_of_double lit_0_0) = true.
Proof. vm_compute. reflexivity. Qed.

Lemma backward_side_by_side :
  side_by_side (fun n a b => Bool.eqb (spec_float_eqb b a)
                               (negb (existsb (Z.eqb n) differing_iterations)))
    descending (float_of_double lit_0_0) (float_of_double lit_0_0) = true.
Proof. vm_compute. reflexivity. Qed.

Lemma f1_forward_state (k : nat) :
  f1 (forward_state k) = fold_left float_step (range_up 1 k) (float_of_double lit_0_0).
Proof. unfold forward_state. rewrite fold_forward. reflexivity. Qed.

Lemma f2_backward_state (k : nat) :
  f2 (backward_state k) = fold_left float_step (range_down 100 k) (float_of_double lit_0_0).
Proof.
  unfold backward_state, forward_state. rewrite fold_backward, fold_forward. reflexivity.
Qed.

Lemma existsb_eqb_in (n : Z) (l : list Z) : existsb (Z.eqb n) l = true <-> In n l.
Proof.
  rewrite existsb_exists. split.
  - intros [x [Hx Hn]]. apply Z.eqb_eq in Hn. subst x. exact Hx.
  - intros Hn. exists n. split; [exact Hn | apply Z.eqb_refl].
Qed.

Lemma negb_existsb_eqb (n : Z) (l : list Z) :
  negb (existsb (Z.eqb n) l) = true <-> ~ In n l.
Proof.
  rewrite negb_true_iff, <- existsb_eqb_in. split.
  - intros E T. congruence.
  - intros N. apply not_true_is_false, N.
Qed.

(** X5. The same two loops with [1.0f / i], every operation in binary32, end
    with the same [f1] and the same [f2] as the program. Run side by side
    with the program, the binary32 loop holds the same [f1] after every
    iteration of the first loop; in the second loop it holds a different [f2]
    after the iterations [i = 98], [81 .. 79] and [62 .. 38], and the same
    [f2] after every other iteration, the last included. Applied to the
    value the program itself holds, one binary32 update gives the program's
    result at every iteration of the first loop, and at every iteration of
    the second but [i = 98], [81] and [62]. *)
Theorem float_only_same_sums (fuel k : nat) :
  (100 <= fuel)%nat -> (k < 100)%nat ->
  exists s,
    sums fuel = Done s /\
    for_up fuel reduced_body (float_of_double lit_0_0) = Done (f1 s) /\
    for_down fuel reduced_body (float_of_double lit_0_0) = Done (f2 s) /\
    for_up fuel reduced_body (float_of_double lit_0_0) = Done (reduced_forward 100) /\
    for_down fuel reduced_body (float_of_double lit_0_0) = Done (reduced_backward 100) /\
    reduced_forward (S k) = f1 (forward_state (S k)) /\
    (reduced_backward (S k) = f2 (backward_state (S k)) <->
     ~ In (100 - Z.of_nat k)
          [98; 81; 80; 79; 62; 61; 60; 59; 58; 57; 56; 55; 54; 53; 52; 51; 50;
           49; 48; 47; 46; 45; 44; 43; 42; 41; 40; 39; 38]) /\
    float_step (f1 (forward_state k)) (1 + Z.of_nat k)
      = float_step_reduced (f1 (forward_state k)) (1 + Z.of_nat k) /\
    (float_step (f2 (backward_state k)) (100 - Z.of_nat k)
       = float_step_reduced (f2 (backward_state k)) (100 - Z.of_nat k)
     <-> ~ In (100 - Z.of_nat k) [98; 81; 62]).
Proof.
  intros H Hk. exists final_locals. split; [apply sums_value, H|].
  assert (U : for_up fuel reduced_body (float_of_double lit_0_0)
              = Done (reduced_forward 100)).
  { rewrite for_up_enough by exact H.
    apply (foldM_pure _ float_step_reduced).
    intros i t Hi. apply reduced_body_defined, in_ascending, Hi. }
  assert (D : for_down fuel reduced_body (float_of_double lit_0_0)
              = Done (reduced_backward 100)).
  { rewrite for_down_enough by exact H.
    apply (foldM_pure _ float_step_reduced).
    intros i t Hi. apply reduced_body_defined, in_descending, Hi. }
  split; [rewrite U; apply f_equal; vm_compute; reflexivity|].
  split; [rewrite D; apply f_equal; vm_compute; reflexivity|].
  split; [exact U|]. split; [exact D|].
  split; [|split; [|split]].
  - pose proof forward_side_by_side as A. unfold ascending in A.
    rewrite (range_up_split k 100 1 Hk) in A.
    apply side_by_side_at in A. apply spec_float_eqb_eq in A.
    rewrite f1_forward_state. unfold reduced_forward.
    rewrite (range_up_snoc k 1). exact A.
  - pose proof backward_side_by_side as B. unfold descending in B.
    rewrite (range_down_split k 100 100 Hk) in B.
    apply side_by_side_at in B. apply Bool.eqb_prop in B.
    rewrite f2_backward_state. unfold reduced_backward.
    rewrite (range_down_snoc k 100).
    rewrite <- spec_float_eqb_eq, B. apply negb_existsb_eqb.
  - pose proof forward_same_updates as A. unfold ascending in A.
    rewrite (range_up_split k 100 1 Hk) in A.
    apply all_steps_at in A. apply spec_float_eqb_eq, A.
  - pose proof backward_updates as B. unfold descending in B.
    rewrite (range_down_split k 100 100 Hk) in B.
    apply all_steps_at in B. apply Bool.eqb_prop in B.
    fold (backward_state k) in B. unfold same_update in B.
    rewrite <- spec_float_eqb_eq, B. apply negb_existsb_eqb.
Qed.

Lemma float_only_same_sums_witness :
  (100 <= 100)%nat /\ (2 < 100)%nat /\
  exists s,
    sums 100 = Done s /\
    for_up 100 reduced_body (float_of_double lit_0_0) = Done (f1 s) /\
    for_down 100 reduced_body (float_of_double lit_0_0) = Done (f2 s) /\
    reduced_forward 3 = f1 (forward_state 3) /\
    reduced_backward 3 <> f2 (backward_state 3) /\
    float_step (f2 (backward_state 2)) 98 <> float_step_reduced (f2 (backward_state 2)) 98.
Proof.
  split; [lia|]. split; [lia|].
  destruct (float_only_same_sums 100 2) as [s [A [B [C [_ [_ [F [G [_ D]]]]]]]]];
    [lia | lia |].
  exists s. split; [exact A|]. split; [exact B|]. split; [exact C|].
  split; [exact F|]. split.
  - intros E. apply G; [exact E | left; reflexivity].
  - intros E. apply D; [exact E | left; reflexivity].
Defined.

(** ** The report for any values *)

(** X6. Whatever the four variables hold, zeros, infinities and NaN
    included, the output statements add exactly four lines after the text
    already written, and the lines begin with [Float forward: ],
    [Double forward: ], [Float difference: ] and [Double difference: ]. *)
Theorem report_any_values (s : locals) (o : ostream) :
  report s o = (o ++ report s EmptyString)%string /\
  exists l1 l2 l3 l4 : string,
    lines (report s EmptyString) = [l1; l2; l3; l4] /\
    prefix "Float forward: " l1 = true /\
    prefix "Double forward: " l2 = true /\
    prefix "Float difference: " l3 = true /\
    prefix "Double difference: " l4 = true.
Proof.
  split.
  - rewrite !report_text. reflexivity.
  - exists (line_float_sums s), (line_double_sums s),
      (line_float_difference s), (line_double_difference s).
    split; [apply report_lines|].
    unfold line_float_sums, line_double_sums, line_float_difference,
      line_double_difference.
    repeat split; cbn;
      match goal with |- prefix EmptyString ?x = true => destruct x; reflexivity end.
Qed.
